(** * durable-nonce: the offline signing pipeline of [src/app.ts]

    A shallow embedding of the script: command-line parsing, the artifact
    codec, the nonce provisioner, the transaction builder, the offline
    signer, the broadcaster and [main].

    Strings are [string]s whose characters stand for code units below 256.
    Files are a finite map from path to content.  The ledger client, the
    transaction library and the base58 codec are collaborators of the script:
    they are taken as an interface ([Collab]) that every stage is
    parameterised by.  What the module does when it is loaded (reading the
    environment, decoding the two secret keys, generating the nonce-account
    key, opening the connection) is taken as done: the three keypairs are
    parameters of the stages. *)

From Stdlib Require Import NArith ZArith Ascii String List Lia.
From Stdlib Require Import DecimalString DecimalN DecimalPos.
From stdpp Require Import base strings list gmap.

Local Open Scope string_scope.

(** ** JavaScript numbers, as far as [parseInt] produces them *)

Module Js.

(** An integer-valued Number: not-a-number, an infinity, or a signed
    magnitude (the sign is kept apart, so minus zero is [JInt true 0]). *)
Inductive number : Type :=
| NaN
| JInf (neg : bool)
| JInt (neg : bool) (mag : N).

#[global] Instance number_eq_dec : EqDecision number.
Proof. solve_decision. Defined.

(** Rounding of a magnitude to the nearest double, ties to even: 53 bits of
    significand, overflow to infinity from 2^1024 on. *)
Definition round_mag (m : N) : option N :=
  if (m <? 2 ^ 53)%N then Some m
  else
    let e := (N.log2 m - 52)%N in
    let q := (m / 2 ^ e)%N in
    let r := (m mod 2 ^ e)%N in
    let half := (2 ^ (e - 1))%N in
    let q' := if (half <? r)%N then (q + 1)%N
              else if (r =? half)%N && N.odd q then (q + 1)%N else q in
    let m' := (q' * 2 ^ e)%N in
    if (m' <? 2 ^ 1024)%N then Some m' else None.

Definition to_number (neg : bool) (m : N) : number :=
  match round_mag m with
  | Some m' => JInt neg m'
  | None => JInf neg
  end.

(** White space stripped by [parseInt] (code units below 256): TAB, LF, VT,
    FF, CR, SP and NBSP. *)
Definition is_ws (c : ascii) : bool :=
  let n := N_of_ascii c in
  (n =? 9)%N || (n =? 10)%N || (n =? 11)%N || (n =? 12)%N || (n =? 13)%N
  || (n =? 32)%N || (n =? 160)%N.

Fixpoint trim_start (s : string) : string :=
  match s with
  | String c s' => if is_ws c then trim_start s' else s
  | EmptyString => s
  end.

(** Value of a character as a digit: 0-9, then a-z and A-Z for 10-35. *)
Definition digit_val (c : ascii) : option N :=
  let n := N_of_ascii c in
  if (48 <=? n)%N && (n <=? 57)%N then Some (n - 48)%N
  else if (97 <=? n)%N && (n <=? 122)%N then Some (n - 87)%N
  else if (65 <=? n)%N && (n <=? 90)%N then Some (n - 55)%N
  else None.

Definition radix_digit (radix : N) (c : ascii) : option N :=
  match digit_val c with
  | Some d => if (d <? radix)%N then Some d else None
  | None => None
  end.

(** The longest prefix of [s] made of digits of the radix. *)
Fixpoint digits_prefix (radix : N) (s : string) : list N :=
  match s with
  | String c s' =>
      match radix_digit radix c with
      | Some d => d :: digits_prefix radix s'
      | None => []
      end
  | EmptyString => []
  end.

Definition digits_value (radix : N) (ds : list N) : N :=
  fold_left (fun acc d => (acc * radix + d)%N) ds 0%N.

Definition strip_sign (s : string) : bool * string :=
  match s with
  | String c s' =>
      if Ascii.eqb c "-" then (true, s')
      else if Ascii.eqb c "+" then (false, s')
      else (false, s)
  | EmptyString => (false, s)
  end.

(** A leading [0x] or [0X] selects radix 16 and is dropped. *)
Definition strip_radix (s : string) : N * string :=
  match s with
  | String c0 (String c1 s') =>
      if Ascii.eqb c0 "0" && (Ascii.eqb c1 "x" || Ascii.eqb c1 "X")
      then (16%N, s')
      else (10%N, s)
  | _ => (10%N, s)
  end.

(** [parseInt(s)] with no radix argument: white space and a sign are
    dropped, a hexadecimal marker selects the radix, the longest prefix of
    digits is read and rounded to a double; no digit gives NaN. *)
Definition parseInt (s : string) : number :=
  let '(neg, s1) := strip_sign (trim_start s) in
  let '(radix, s2) := strip_radix s1 in
  match digits_prefix radix s2 with
  | [] => NaN
  | ds => to_number neg (digits_value radix ds)
  end.

End Js.

(** ** Command line *)

(** What a run of the parser ends in: it returns the two settings, or the
    process is stopped by [process.exit]. *)
Record Args : Type := mkArgs { useNonce : bool; waitTime : Js.number }.

Inductive ParseOutcome : Type :=
| Parsed (a : Args)
| Exited (code : Z).

(** The parser's result together with the lines it sent to standard error. *)
Definition ParseRun : Type := (ParseOutcome * list string)%type.

Definition err_waitTime_needs_arg : string :=
  "Error: The -waitTime flag requires an argument".

Definition err_unknown_arg (a : string) : string :=
  "Error: Unknown argument '" ++ a ++ "'".

(** The loop of [parseCommandLineArgs] over the arguments from index [i] on
    ([rest] is [process.argv] from [i]); the [i++] after a delay value is the
    step to [rest']. *)
Fixpoint parse_loop (rest : list string) (useNonce : bool)
    (waitTime : Js.number) : ParseRun :=
  match rest with
  | [] => (Parsed (mkArgs useNonce waitTime), [])
  | a :: rest1 =>
      if String.eqb a "-useNonce" then parse_loop rest1 true waitTime
      else if String.eqb a "-waitTime" then
        match rest1 with
        | v :: rest' => parse_loop rest' useNonce (Js.parseInt v)
        | [] => (Exited 1, [err_waitTime_needs_arg])
        end
      else (Exited 1, [err_unknown_arg a])
  end.

Definition parseCommandLineArgs (argv : list string) : ParseRun :=
  parse_loop (drop 2 argv) false (Js.JInt false 120000).


(** ** Data of the transaction library, as the script uses it *)

Definition bytes : Type := list Byte.byte.
Definition PublicKey : Type := string.
Definition Blockhash : Type := string.

Record Keypair : Type := mkKeypair { publicKey : PublicKey; secretKey : bytes }.

(** The four system-program instructions the script builds, with the
    parameters it passes to each builder. *)
Inductive Instruction : Type :=
| createAccount (fromPubkey newAccountPubkey : PublicKey) (lamports space : N)
    (programId : PublicKey)
| nonceInitialize (noncePubkey authorizedPubkey : PublicKey)
| nonceAdvance (authorizedPubkey noncePubkey : PublicKey)
| transfer (fromPubkey toPubkey : PublicKey) (lamports : N).

Definition is_nonceAdvance (ix : Instruction) : bool :=
  match ix with nonceAdvance _ _ => true | _ => false end.

Record Transaction : Type := mkTransaction {
  instructions : list Instruction;
  feePayer : option PublicKey;
  recentBlockhash : option Blockhash;
  lastValidBlockHeight : option N;
  signatures : list (PublicKey * option bytes)
}.

(** [new Transaction()] *)
Definition new_Transaction : Transaction :=
  mkTransaction [] None None None [].

(** [tx.add(...items)] *)
Definition tx_add (items : list Instruction) (tx : Transaction) : Transaction :=
  mkTransaction (instructions tx ++ items) (feePayer tx) (recentBlockhash tx)
    (lastValidBlockHeight tx) (signatures tx).

Definition set_feePayer (pk : PublicKey) (tx : Transaction) : Transaction :=
  mkTransaction (instructions tx) (Some pk) (recentBlockhash tx)
    (lastValidBlockHeight tx) (signatures tx).

Definition set_recentBlockhash (h : Blockhash) (tx : Transaction) : Transaction :=
  mkTransaction (instructions tx) (feePayer tx) (Some h)
    (lastValidBlockHeight tx) (signatures tx).

Definition set_lastValidBlockHeight (n : N) (tx : Transaction) : Transaction :=
  mkTransaction (instructions tx) (feePayer tx) (recentBlockhash tx)
    (Some n) (signatures tx).

Record NonceAccount : Type := mkNonceAccount {
  authorizedPubkey_of : PublicKey;
  nonce : Blockhash
}.

(** A thrown value: an [Error] with its message. *)
Inductive JsError : Type := mkError (message : string).

Definition result (A : Type) : Type := (JsError + A)%type.

(** A signature slot of [tx] for [pk] that holds a signature. *)
Definition slot_filled (tx : Transaction) (pk : PublicKey) : bool :=
  existsb (fun s => String.eqb (fst s) pk && bool_decide (is_Some (snd s)))
    (signatures tx).

(** ** The collaborators

    Everything the script calls but does not define: the transaction
    library ([serialize], [Transaction.from], [sign], the signer set of a
    transaction, the nonce-record decoder, key generation), the base58
    codec, the RPC connection and the timer.  The ledger, the randomness
    source and the clock form one outside state [Outside], threaded through
    the calls that can observe or change it. *)
Record Collab : Type := mkCollab {
  Outside : Type;
  NONCE_ACCOUNT_LENGTH : N;
  SystemProgram_programId : PublicKey;
  required_signers : Transaction -> list PublicKey;
  tx_serialize : bool -> Transaction -> result bytes;
  tx_from : bytes -> result Transaction;
  tx_sign : list Keypair -> Transaction -> result Transaction;
  NonceAccount_fromAccountData : bytes -> result NonceAccount;
  bs58_encode : bytes -> string;
  bs58_decode : string -> result bytes;
  Keypair_generate : Outside -> Keypair * Outside;
  getAccountInfo : PublicKey -> Outside -> result (option bytes) * Outside;
  getLatestBlockhash : Outside -> result (Blockhash * N) * Outside;
  getMinimumBalanceForRentExemption : N -> Outside -> result N * Outside;
  sendRawTransaction : bytes -> Outside -> result string * Outside;
  confirmTransaction :
    string -> Blockhash -> N -> Outside -> result (option string) * Outside;
  setTimeout_wait : Js.number -> Outside -> Outside
}.

(** Some signer the transaction needs has no filled slot. *)
Definition missing_signature (C : Collab) (tx : Transaction) : bool :=
  negb (forallb (slot_filled tx) (required_signers C tx)).

(** The signature slots pair up, in order, with the keys [ks]. *)
Fixpoint keys_match (slots : list (PublicKey * option bytes))
    (ks : list PublicKey) : bool :=
  match slots, ks with
  | [], [] => true
  | s :: slots', k :: ks' => String.eqb (fst s) k && keys_match slots' ks'
  | _, _ => false
  end.

(** The slots the wire format carries for keys [ks]: the transaction's own
    when they pair up with [ks], and otherwise one empty slot per key. *)
Definition slots_for (tx : Transaction) (ks : list PublicKey)
    : list (PublicKey * option bytes) :=
  if keys_match (signatures tx) ks then signatures tx
  else map (fun k => (k, None)) ks.


(** ** The process state and its monad *)

Inductive LogItem : Type :=
| LStr (s : string)
| LNum (n : Js.number)
| LErr (e : JsError).

Definition LogLine : Type := list LogItem.

Record World (C : Collab) : Type := mkWorld {
  fs : gmap string string;
  outside : Outside C;
  stdout : list LogLine;
  stderr : list LogLine
}.

Arguments mkWorld {C} _ _ _ _.
Arguments fs {C} _.
Arguments outside {C} _.
Arguments stdout {C} _.
Arguments stderr {C} _.

(** A computation that may throw: the state reached is kept either way. *)
Definition M (C : Collab) (A : Type) : Type := World C -> result A * World C.

Definition ret {C A} (a : A) : M C A := fun w => (inr a, w).

Definition throw {C A} (e : JsError) : M C A := fun w => (inl e, w).

Definition bind {C A B} (m : M C A) (k : A -> M C B) : M C B :=
  fun w =>
    match m w with
    | (inr a, w') => k a w'
    | (inl e, w') => (inl e, w')
    end.

(** [try { m } catch (error) { h error }] *)
Definition try_catch {C A} (m : M C A) (h : JsError -> M C A) : M C A :=
  fun w =>
    match m w with
    | (inr a, w') => (inr a, w')
    | (inl e, w') => h e w'
    end.

Notation "'let!' x ':=' m 'in' k" := (bind m (fun x => k))
  (at level 10, x pattern, m at level 100, k at level 200).
Notation "'run!' m 'in' k" := (bind m (fun _ => k))
  (at level 10, m at level 100, k at level 200).

(** A pure library call that may throw. *)
Definition lift_result {C A} (r : result A) : M C A := fun w => (r, w).

(** A call that goes through the outside state. *)
Definition lift_outside {C A} (f : Outside C -> A * Outside C) : M C A :=
  fun w =>
    let '(a, o) := f (outside w) in
    (inr a, mkWorld (fs w) o (stdout w) (stderr w)).

Definition call_outside {C A} (f : Outside C -> result A * Outside C) : M C A :=
  fun w =>
    let '(r, o) := f (outside w) in
    (r, mkWorld (fs w) o (stdout w) (stderr w)).

Definition console_log {C} (l : LogLine) : M C unit :=
  fun w => (inr tt, mkWorld (fs w) (outside w) (stdout w ++ [l]) (stderr w)).

Definition console_error {C} (l : LogLine) : M C unit :=
  fun w => (inr tt, mkWorld (fs w) (outside w) (stdout w) (stderr w ++ [l])).

(** [fs.writeFileSync(filename, data)]: creates or overwrites. *)
Definition writeFileSync {C} (filename data : string) : M C unit :=
  fun w =>
    (inr tt, mkWorld (<[filename := data]> (fs w)) (outside w) (stdout w)
               (stderr w)).

(** [fs.readFileSync(filename, "utf-8")]: throws when there is no file. *)
Definition readFileSync {C} (filename : string) : M C string :=
  fun w =>
    match fs w !! filename with
    | Some data => (inr data, w)
    | None =>
        (inl (mkError ("ENOENT: no such file or directory, open '"
                       ++ filename ++ "'")), w)
    end.

(** ** The timer of the runtime *)

(** The longest delay [setTimeout] takes as given. *)
Definition TIMEOUT_MAX : N := 2147483647.

(** The delay is above [TIMEOUT_MAX]: the runtime then emits a
    TimeoutOverflowWarning and waits one millisecond instead. *)
Definition setTimeout_overflows (n : Js.number) : bool :=
  match n with
  | Js.JInt false m => (TIMEOUT_MAX <? m)%N
  | Js.JInf false => true
  | _ => false
  end.

Definition timeout_overflow_warning (n : Js.number) : LogLine :=
  [LStr "TimeoutOverflowWarning: "; LNum n;
   LStr " does not fit into a 32-bit signed integer.";
   LStr "Timeout duration was set to 1."].

(** ** The stages of [src/app.ts] *)

(** What a JavaScript function hands back to its caller, where the script
    leaves it open: nothing, or a string. *)
Inductive JsValue : Type :=
| undefined
| JString (s : string).

Definition unsigned_path : string := "./unsigned.json".
Definition signed_path : string := "./signed.json".

(** [web3.LAMPORTS_PER_SOL * 0.01], with [LAMPORTS_PER_SOL] one billion. *)
Definition TRANSFER_AMOUNT : N := 10000000.

Section Pipeline.

Context (C : Collab).

(** The three keypairs fixed when the module is loaded. *)
Variables senderKeypair nonceAuthKeypair nonceKeypair : Keypair.

Definition fetchNonceInfo : M C NonceAccount :=
  let! accountInfo :=
    call_outside (getAccountInfo C (publicKey nonceKeypair)) in
  match accountInfo with
  | None => throw (mkError "No account info found")
  | Some data =>
      let! nonceAccount := lift_result (NonceAccount_fromAccountData C data) in
      run! console_log
             [LStr "      Auth:"; LStr (authorizedPubkey_of nonceAccount)] in
      run! console_log [LStr "      Nonce:"; LStr (nonce nonceAccount)] in
      ret nonceAccount
  end.

Definition encodeAndWriteTransaction (tx : Transaction) (filename : string)
    (requireAllSignatures : bool) : M C string :=
  let! raw := lift_result (tx_serialize C requireAllSignatures tx) in
  let serialisedTx := bs58_encode C raw in
  run! writeFileSync filename serialisedTx in
  run! console_log [LStr ("      Tx written to " ++ filename)] in
  ret serialisedTx.

Definition readAndDecodeTransaction (filename : string) : M C Transaction :=
  let! transactionData := readFileSync filename in
  let! decodedData := lift_result (bs58_decode C transactionData) in
  let! transaction := lift_result (tx_from C decodedData) in
  ret transaction.

(** The transaction [createNonce] assembles before signing it. *)
Definition newNonceTx (rent : N) (blockhash : Blockhash)
    (lastValid : N) : Transaction :=
  tx_add
    [createAccount (publicKey nonceAuthKeypair) (publicKey nonceKeypair) rent
       (NONCE_ACCOUNT_LENGTH C) (SystemProgram_programId C);
     nonceInitialize (publicKey nonceKeypair) (publicKey nonceAuthKeypair)]
    (set_lastValidBlockHeight lastValid
       (set_recentBlockhash blockhash
          (set_feePayer (publicKey nonceAuthKeypair) new_Transaction))).

Definition createNonce : M C unit :=
  run! console_log [LStr "---Step 2---Creating nonce account"] in
  let! rent :=
    call_outside
      (getMinimumBalanceForRentExemption C (NONCE_ACCOUNT_LENGTH C)) in
  let! (blockhash, lastValid) := call_outside (getLatestBlockhash C) in
  let! signedTx :=
    lift_result
      (tx_sign C [nonceKeypair; nonceAuthKeypair]
         (newNonceTx rent blockhash lastValid)) in
  try_catch
    (let! raw := lift_result (tx_serialize C true signedTx) in
     let! signature := call_outside (sendRawTransaction C raw) in
     run! call_outside (confirmTransaction C signature blockhash lastValid) in
     console_log [LStr "      Nonce Acct Created: "; LStr signature])
    (fun error =>
       run! console_error
              [LStr "Failed to create nonce account: "; LErr error] in
       throw error).

Definition createTx (useNonce : bool) : M C string :=
  run! console_log [LStr "---Step 3---Creating transaction"] in
  let! destination := lift_outside (Keypair_generate C) in
  let transferIx :=
    transfer (publicKey senderKeypair) (publicKey destination)
      TRANSFER_AMOUNT in
  let advanceIx :=
    nonceAdvance (publicKey nonceAuthKeypair) (publicKey nonceKeypair) in
  let sampleTx := new_Transaction in
  let! sampleTx :=
    (if useNonce then
       let sampleTx := tx_add [advanceIx; transferIx] sampleTx in
       let! nonceAccount := fetchNonceInfo in
       ret (set_recentBlockhash (nonce nonceAccount) sampleTx)
     else
       let sampleTx := tx_add [transferIx] sampleTx in
       let! latest := call_outside (getLatestBlockhash C) in
       ret (set_recentBlockhash (fst latest) sampleTx)) in
  let sampleTx := set_feePayer (publicKey senderKeypair) sampleTx in
  encodeAndWriteTransaction sampleTx unsigned_path false.

(** The keys [signOffline] passes to [sign], in order. *)
Definition offline_signers (useNonce : bool) : list Keypair :=
  if useNonce then [nonceAuthKeypair; senderKeypair] else [senderKeypair].

(** [await new Promise((resolve) => setTimeout(resolve, waitTime))]: the
    runtime warns on standard error when the delay does not fit 32 bits,
    then the wait passes. *)
Definition sleep (waitTime : Js.number) : M C unit :=
  run! (if setTimeout_overflows waitTime
        then console_error (timeout_overflow_warning waitTime)
        else ret tt) in
  lift_outside (fun o => (tt, setTimeout_wait C waitTime o)).

Definition signOffline (waitTime : Js.number) (useNonce : bool) : M C string :=
  run! console_log [LStr "---Step 4---Signing transaction offline"] in
  run! sleep waitTime in
  let! unsignedTx := readAndDecodeTransaction unsigned_path in
  let! signedTx :=
    lift_result (tx_sign C (offline_signers useNonce) unsignedTx) in
  encodeAndWriteTransaction signedTx signed_path true.

Definition executeTx : M C JsValue :=
  run! console_log [LStr "---Step 5---Executing transaction"] in
  let! signedTx := readAndDecodeTransaction signed_path in
  let! raw := lift_result (tx_serialize C true signedTx) in
  let! sig := call_outside (sendRawTransaction C raw) in
  run! console_log [LStr "      Tx sent: "; LStr sig] in
  ret undefined.

(** How the process ends: [process.exit(code)] was called, or [main] ran to
    its end and the process exits with status zero. *)
Inductive MainOutcome : Type :=
| ProcessExit (code : Z)
| Completed.

Definition exit_status (o : MainOutcome) : Z :=
  match o with
  | ProcessExit code => code
  | Completed => 0%Z
  end.

Definition announce (a : Args) : LogLine :=
  [LStr "Attempting to send a transaction using a ";
   LStr (if useNonce a then "nonce" else "recent blockhash");
   LStr ". Waiting "; LNum (waitTime a);
   LStr "ms before signing to simulate an offline transaction."].

(** The four steps inside the [try] of [main]. *)
Definition pipeline (a : Args) : M C unit :=
  run! createNonce in
  run! createTx (useNonce a) in
  run! signOffline (waitTime a) (useNonce a) in
  run! executeTx in
  ret tt.

Definition main (argv : list string) (w : World C) : MainOutcome * World C :=
  match parseCommandLineArgs argv with
  | (Exited code, errs) =>
      (ProcessExit code,
       mkWorld (fs w) (outside w) (stdout w)
         (stderr w ++ map (fun s => [LStr s]) errs))
  | (Parsed a, _) =>
      let body :=
        run! console_log (announce a) in
        try_catch (pipeline a) (fun error => console_error [LErr error]) in
      (Completed, snd (body w))
  end.

End Pipeline.

(** ** A reference collaborator

    A small executable instance of [Collab], used to run the stages on
    concrete inputs.  Its transaction codec follows the library's: a
    transaction is compiled to its required signers (the fee payer first),
    the wire form carries the instructions, the recent blockhash and one
    signature slot per required signer, and reading it back gives those and
    nothing else.  A signature is stood for by the signer's secret bytes and
    counts as valid; the ledger accepts or refuses submissions by a
    switch. *)

Module Ref.

Local Open Scope list_scope.

(** The wire format: numbers as little-endian bits closed by a stop byte,
    strings and lists behind their length, options and instructions behind
    a tag. *)
Fixpoint ser_pos (p : positive) : bytes :=
  match p with
  | xH => [Byte.x01; Byte.x02]
  | xO q => Byte.x00 :: ser_pos q
  | xI q => Byte.x01 :: ser_pos q
  end.

Definition ser_N (n : N) : bytes :=
  match n with
  | N0 => [Byte.x02]
  | Npos p => ser_pos p
  end.

Definition ser_str (s : string) : bytes :=
  ser_N (N.of_nat (String.length s)) ++ list_byte_of_string s.

Definition ser_blob (b : bytes) : bytes :=
  ser_N (N.of_nat (length b)) ++ b.

Definition ser_opt {A} (f : A -> bytes) (o : option A) : bytes :=
  match o with
  | None => [Byte.x00]
  | Some a => Byte.x01 :: f a
  end.

Definition ser_list {A} (f : A -> bytes) (l : list A) : bytes :=
  ser_N (N.of_nat (length l)) ++ flat_map f l.

Definition ser_ix (ix : Instruction) : bytes :=
  match ix with
  | createAccount f a l s p =>
      Byte.x00 :: ser_str f ++ ser_str a ++ ser_N l ++ ser_N s ++ ser_str p
  | nonceInitialize n a => Byte.x01 :: ser_str n ++ ser_str a
  | nonceAdvance a n => Byte.x02 :: ser_str a ++ ser_str n
  | transfer f t l => Byte.x03 :: ser_str f ++ ser_str t ++ ser_N l
  end.

Definition ser_slot (s : PublicKey * option bytes) : bytes :=
  ser_str (fst s) ++ ser_opt ser_blob (snd s).

(** The wire form of a transaction: instructions, recent blockhash and one
    slot per required signer; the fee payer is the key of the first slot. *)
Definition ser_wire (ixs : list Instruction) (blockhash : Blockhash)
    (slots : list (PublicKey * option bytes)) : bytes :=
  ser_list ser_ix ixs ++ ser_str blockhash ++ ser_list ser_slot slots.

Definition parser (A : Type) : Type := bytes -> option (A * bytes).

Definition pbind {A B} (p : parser A) (k : A -> parser B) : parser B :=
  fun l => match p l with Some (a, r) => k a r | None => None end.

Definition pret {A} (a : A) : parser A := fun l => Some (a, l).

Fixpoint par_N (l : bytes) : option (N * bytes) :=
  match l with
  | Byte.x02 :: r => Some (0%N, r)
  | Byte.x00 :: r =>
      match par_N r with Some (n, r') => Some (N.double n, r') | None => None end
  | Byte.x01 :: r =>
      match par_N r with
      | Some (n, r') => Some (N.succ_double n, r')
      | None => None
      end
  | _ => None
  end.

Definition par_blob : parser bytes :=
  pbind par_N (fun n l =>
    let k := N.to_nat n in
    if (k <=? length l)%nat then Some (firstn k l, skipn k l) else None).

Definition par_str : parser string :=
  pbind par_blob (fun b => pret (string_of_list_byte b)).

Definition par_opt {A} (p : parser A) : parser (option A) :=
  fun l =>
    match l with
    | Byte.x00 :: r => Some (None, r)
    | Byte.x01 :: r => pbind p (fun a => pret (Some a)) r
    | _ => None
    end.

Fixpoint par_times {A} (p : parser A) (k : nat) : parser (list A) :=
  match k with
  | O => pret []
  | S k' => pbind p (fun a => pbind (par_times p k') (fun r => pret (a :: r)))
  end.

Definition par_list {A} (p : parser A) : parser (list A) :=
  pbind par_N (fun n => par_times p (N.to_nat n)).


Definition par_ix : parser Instruction :=
  fun l =>
    match l with
    | Byte.x00 :: r =>
        pbind par_str (fun f => pbind par_str (fun a => pbind par_N (fun l =>
        pbind par_N (fun s => pbind par_str (fun p =>
        pret (createAccount f a l s p)))))) r
    | Byte.x01 :: r =>
        pbind par_str (fun n => pbind par_str (fun a =>
        pret (nonceInitialize n a))) r
    | Byte.x02 :: r =>
        pbind par_str (fun a => pbind par_str (fun n =>
        pret (nonceAdvance a n))) r
    | Byte.x03 :: r =>
        pbind par_str (fun f => pbind par_str (fun t => pbind par_N (fun l =>
        pret (transfer f t l)))) r
    | _ => None
    end.

Definition par_slot : parser (PublicKey * option bytes) :=
  pbind par_str (fun k => pbind (par_opt par_blob) (fun o => pret (k, o))).

Definition par_wire : parser Transaction :=
  pbind (par_list par_ix) (fun i => pbind par_str (fun h =>
  pbind (par_list par_slot) (fun s =>
  pret (mkTransaction i (option_map fst (head s)) (Some h) None s)))).

Record Ledger : Type := mkLedger {
  accounts : list (PublicKey * bytes);
  latest : Blockhash;
  height : N;
  accepting : bool;
  submitted : list bytes;
  generated : N
}.

(** An account reference of an instruction, with its two flags. *)
Record Meta : Type := mkMeta {
  meta_key : PublicKey;
  meta_signer : bool;
  meta_writable : bool
}.

Definition SYSTEM_PROGRAM : PublicKey := "11111111111111111111111111111111".
Definition SYSVAR_RECENT_BLOCKHASHES : PublicKey :=
  "SysvarRecentB1ockHashes11111111111111111111".
Definition SYSVAR_RENT : PublicKey :=
  "SysvarRent111111111111111111111111111111111".

(** The accounts each system-program instruction refers to. *)
Definition instruction_keys (ix : Instruction) : list Meta :=
  match ix with
  | createAccount f a _ _ _ => [mkMeta f true true; mkMeta a true true]
  | nonceInitialize n _ =>
      [mkMeta n false true; mkMeta SYSVAR_RECENT_BLOCKHASHES false false;
       mkMeta SYSVAR_RENT false false]
  | nonceAdvance a n =>
      [mkMeta n false true; mkMeta SYSVAR_RECENT_BLOCKHASHES false false;
       mkMeta a true false]
  | transfer f t _ => [mkMeta f true true; mkMeta t false true]
  end.

(** Adds a reference, or joins its flags to those of the same key. *)
Fixpoint merge_meta (m : Meta) (l : list Meta) : list Meta :=
  match l with
  | [] => [m]
  | x :: r =>
      if String.eqb (meta_key x) (meta_key m)
      then mkMeta (meta_key x) (meta_signer x || meta_signer m)
             (meta_writable x || meta_writable m) :: r
      else x :: merge_meta m r
  end.

Definition unique_metas (l : list Meta) : list Meta :=
  fold_left (fun acc m => merge_meta m acc) l [].

(** The order of keys: by letters and digits first (digits before letters,
    case ignored), then lower case before upper case. *)
Definition primary_weight (c : ascii) : N :=
  let n := N_of_ascii c in
  if (48 <=? n)%N && (n <=? 57)%N then (1000 + (n - 48))%N
  else if (97 <=? n)%N && (n <=? 122)%N then (2000 + (n - 97))%N
  else if (65 <=? n)%N && (n <=? 90)%N then (2000 + (n - 65))%N
  else n.

Definition case_rank (c : ascii) : N :=
  let n := N_of_ascii c in
  if (65 <=? n)%N && (n <=? 90)%N then 1%N else 0%N.

Fixpoint compare_by (f : ascii -> N) (a b : string) : comparison :=
  match a with
  | EmptyString => if String.eqb b EmptyString then Eq else Lt
  | String x a' =>
      match b with
      | EmptyString => Gt
      | String y b' =>
          let c := N.compare (f x) (f y) in
          match c with
          | Eq => compare_by f a' b'
          | _ => c
          end
      end
  end.

Definition key_compare (a b : PublicKey) : comparison :=
  match compare_by primary_weight a b with
  | Eq => compare_by case_rank a b
  | c => c
  end.

(** [x] sorts strictly before [y]: signers first, then writable accounts,
    then by key. *)
Definition meta_before (x y : Meta) : bool :=
  if Bool.eqb (meta_signer x) (meta_signer y) then
    if Bool.eqb (meta_writable x) (meta_writable y) then
      match key_compare (meta_key x) (meta_key y) with
      | Lt => true
      | _ => false
      end
    else meta_writable x
  else meta_signer x.

Fixpoint insert_meta (m : Meta) (l : list Meta) : list Meta :=
  match l with
  | [] => [m]
  | x :: r => if meta_before m x then m :: l else x :: insert_meta m r
  end.

(** A stable sort. *)
Definition sort_metas (l : list Meta) : list Meta :=
  fold_left (fun acc m => insert_meta m acc) l [].

Definition payer_first (payer : PublicKey) (l : list Meta) : list Meta :=
  mkMeta payer true true
  :: List.filter (fun m => negb (String.eqb (meta_key m) payer)) l.

(** A key that holds a signature slot must be an account of the
    transaction, and counts as a signer from then on. *)
Fixpoint mark_signer (k : PublicKey) (l : list Meta) : option (list Meta) :=
  match l with
  | [] => None
  | x :: r =>
      if String.eqb (meta_key x) k
      then Some (mkMeta (meta_key x) true (meta_writable x) :: r)
      else option_map (cons x) (mark_signer k r)
  end.

Fixpoint mark_signers (ks : list PublicKey) (l : list Meta)
    : result (list Meta) :=
  match ks with
  | [] => inr l
  | k :: ks' =>
      match mark_signer k l with
      | Some l' => mark_signers ks' l'
      | None => inl (mkError ("unknown signer: " ++ k)%string)
      end
  end.

(** The fee payer the library compiles with: the one set, or else the key
    of the first signature slot. *)
Definition payer_of (tx : Transaction) : option PublicKey :=
  match feePayer tx with
  | Some p => Some p
  | None => option_map fst (head (signatures tx))
  end.

(** The keys that must sign, in the order of the compiled message: the fee
    payer, then the other signers. *)
Definition signed_keys (tx : Transaction) : result (list PublicKey) :=
  match payer_of tx with
  | None => inl (mkError "Transaction fee payer required")
  | Some payer =>
      let metas :=
        payer_first payer
          (sort_metas
             (unique_metas
                (flat_map instruction_keys (instructions tx)
                 ++ map (fun _ => mkMeta SYSTEM_PROGRAM false false)
                      (instructions tx)))) in
      match mark_signers (map fst (signatures tx)) metas with
      | inl e => inl e
      | inr metas' => inr (map meta_key (List.filter meta_signer metas'))
      end
  end.

Definition compile (tx : Transaction) : result (list PublicKey) :=
  match recentBlockhash tx with
  | None => inl (mkError "Transaction recentBlockhash required")
  | Some _ => signed_keys tx
  end.

Definition signers (tx : Transaction) : list PublicKey :=
  match signed_keys tx with
  | inr ks => ks
  | inl _ => []
  end.

Definition slot_empty (s : PublicKey * option bytes) : bool :=
  match snd s with Some _ => false | None => true end.

(** [tx.serialize({requireAllSignatures})]; every signature that is present
    counts as valid. *)
Definition serialize (requireAllSignatures : bool) (tx : Transaction)
    : result bytes :=
  match recentBlockhash tx, compile tx with
  | Some h, inr ks =>
      if requireAllSignatures && existsb slot_empty (slots_for tx ks)
      then inl (mkError "Signature verification failed")
      else inr (ser_wire (instructions tx) h (slots_for tx ks))
  | _, inl e => inl e
  | None, inr _ => inl (mkError "Transaction recentBlockhash required")
  end.

Definition from (b : bytes) : result Transaction :=
  match par_wire b with
  | Some (tx, []) => inr tx
  | _ => inl (mkError "malformed transaction")
  end.

Fixpoint dedup_signers (seen : list PublicKey) (l : list Keypair)
    : list Keypair :=
  match l with
  | [] => []
  | kp :: r =>
      if existsb (String.eqb (publicKey kp)) seen then dedup_signers seen r
      else kp :: dedup_signers (publicKey kp :: seen) r
  end.

(** [tx.sign(...kps)]: the slots become one per required signer, filled for
    the keys given. *)
Definition sign (kps : list Keypair) (tx : Transaction)
    : result Transaction :=
  match kps with
  | [] => inl (mkError "No signers")
  | _ =>
      let unique := dedup_signers [] kps in
      match compile
              (mkTransaction (instructions tx) (feePayer tx)
                 (recentBlockhash tx) (lastValidBlockHeight tx)
                 (map (fun kp => (publicKey kp, None)) unique)) with
      | inl e => inl e
      | inr ks =>
          inr (mkTransaction (instructions tx) (feePayer tx)
                 (recentBlockhash tx) (lastValidBlockHeight tx)
                 (map (fun k =>
                         (k,
                          option_map secretKey
                            (find (fun kp => String.eqb (publicKey kp) k)
                               unique)))
                    ks))
      end
  end.

Definition fromAccountData (data : bytes) : result NonceAccount :=
  match data with
  | [] => inl (mkError "invalid nonce account data")
  | _ => inr (mkNonceAccount "authority" (string_of_list_byte data))
  end.

Definition lookup_account (pk : PublicKey) (l : list (PublicKey * bytes))
    : option bytes :=
  option_map snd (find (fun e => String.eqb (fst e) pk) l).

Definition send (raw : bytes) (o : Ledger) : result string * Ledger :=
  if accepting o then
    (inr (String (ascii_of_N (48 + N.of_nat (length (submitted o)))) "-txid"),
     mkLedger (accounts o) (latest o) (height o) (accepting o)
       (submitted o ++ [raw]) (generated o))
  else (inl (mkError "failed to send transaction"), o).

Definition collab : Collab := {|
  Outside := Ledger;
  NONCE_ACCOUNT_LENGTH := 80;
  SystemProgram_programId := SYSTEM_PROGRAM;
  required_signers := signers;
  tx_serialize := serialize;
  tx_from := from;
  tx_sign := sign;
  NonceAccount_fromAccountData := fromAccountData;
  bs58_encode := string_of_list_byte;
  bs58_decode := fun s => inr (list_byte_of_string s);
  Keypair_generate := fun o =>
    (mkKeypair (String (ascii_of_N (48 + generated o)) "-generated") [],
     mkLedger (accounts o) (latest o) (height o) (accepting o) (submitted o)
       (generated o + 1));
  getAccountInfo := fun pk o => (inr (lookup_account pk (accounts o)), o);
  getLatestBlockhash := fun o => (inr (latest o, (height o + 150)%N), o);
  getMinimumBalanceForRentExemption := fun n o =>
    (inr ((n + 128) * 6960)%N, o);
  sendRawTransaction := send;
  confirmTransaction := fun _ _ _ o => (inr None, o);
  setTimeout_wait := fun _ o =>
    mkLedger (accounts o) (latest o) (height o + 1) (accepting o)
      (submitted o) (generated o)
|}.

Definition sender : Keypair := mkKeypair "sender" [Byte.x01].
Definition authority : Keypair := mkKeypair "authority" [Byte.x02].
Definition nonceKey : Keypair := mkKeypair "nonce" [Byte.x03].

(** A ledger that already holds the nonce account. *)
Definition ledger0 : Ledger :=
  mkLedger [("nonce", [Byte.x4e; Byte.x31])] "hash0" 7 true [] 0.

(** A ledger without the nonce account. *)
Definition ledger_empty : Ledger :=
  mkLedger [] "hash0" 7 true [] 0.

Definition world0 : World collab :=
  @mkWorld collab ∅ ledger0 [] [].
Definition world_empty : World collab :=
  @mkWorld collab ∅ ledger_empty [] [].

(** A transfer drafted in blockhash mode, before and after the sender
    signed it. *)
Definition draft : Transaction :=
  mkTransaction [transfer "sender" "recipient" TRANSFER_AMOUNT]
    (Some "sender") (Some "hash0") None [].

Definition draft_signed : Transaction :=
  mkTransaction [transfer "sender" "recipient" TRANSFER_AMOUNT]
    (Some "sender") (Some "hash0") None [("sender", Some [Byte.x01])].

(** A world that already has a file at the signed-artifact path. *)
Definition world_stale : World collab :=
  @mkWorld collab {[ signed_path := "stale" ]} ledger0 [] [].

(** The worlds a blockhash-mode and a nonce-mode build leave, and the one
    left by signing the former. *)
Definition world_drafted : World collab :=
  snd (createTx collab sender authority nonceKey false world0).

Definition world_drafted_nonce : World collab :=
  snd (createTx collab sender authority nonceKey true world0).

Definition world_signed : World collab :=
  snd (signOffline collab sender authority (Js.JInt false 0) false
         world_drafted).

End Ref.


(** ** Vocabulary of the statements *)

(** The command line is refused: scanning from the left, where [-waitTime]
    takes the argument after it as its value, the scan meets an argument
    that is neither flag, or a [-waitTime] with nothing after it.  The second
    index is the line sent to standard error. *)
Inductive refused : list string -> string -> Prop :=
| refused_unknown a rest :
    a ≠ "-useNonce" -> a ≠ "-waitTime" ->
    refused (a :: rest) (err_unknown_arg a)
| refused_dangling : refused ["-waitTime"] err_waitTime_needs_arg
| refused_after_useNonce rest m :
    refused rest m -> refused ("-useNonce" :: rest) m
| refused_after_waitTime v rest m :
    refused rest m -> refused ("-waitTime" :: v :: rest) m.

Definition is_dec_digit (c : ascii) : bool :=
  (48 <=? N_of_ascii c)%N && (N_of_ascii c <=? 57)%N.

Fixpoint all_dec_digits (s : string) : bool :=
  match s with
  | String c s' => is_dec_digit c && all_dec_digits s'
  | EmptyString => true
  end.

Fixpoint dec_value_from (acc : N) (s : string) : N :=
  match s with
  | String c s' => dec_value_from (acc * 10 + (N_of_ascii c - 48))%N s'
  | EmptyString => acc
  end.

(** The number a string of decimal digits denotes. *)
Definition dec_value (s : string) : N := dec_value_from 0 s.

Definition starts_with_dec_digit (s : string) : bool :=
  match s with
  | String c _ => is_dec_digit c
  | EmptyString => false
  end.


(** [ds ++ g] begins with the hexadecimal marker. *)
Definition hex_marked (ds g : string) : bool :=
  String.eqb ds "0"
  && match g with
     | String c _ => Ascii.eqb c "x" || Ascii.eqb c "X"
     | EmptyString => false
     end.

(** The world [main] leaves when the command line is refused with line [m]. *)
Definition refused_world {C} (w : World C) (m : string) : World C :=
  mkWorld (fs w) (outside w) (stdout w) (stderr w ++ [[LStr m]]).

(** What reloading an artifact with the given content yields ([None]: there
    is no file at [filename]). *)
Definition reload (C : Collab) (filename : string) (content : option string)
    : result Transaction :=
  match content with
  | None =>
      inl (mkError ("ENOENT: no such file or directory, open '"
                    ++ filename ++ "'"))
  | Some data =>
      match bs58_decode C data with
      | inl e => inl e
      | inr decoded => tx_from C decoded
      end
  end.

(** The world after a successful write of [data] to [filename]. *)
Definition written {C} (w : World C) (filename data : string) : World C :=
  mkWorld (<[filename := data]> (fs w)) (outside w)
    (stdout w ++ [[LStr ("      Tx written to " ++ filename)]]) (stderr w).

(** The world after [console.error(error)]. *)
Definition reported {C} (w : World C) (e : JsError) : World C :=
  mkWorld (fs w) (outside w) (stdout w) (stderr w ++ [[LErr e]]).

(** The world in which [main] starts its stages, for settings [a]. *)
Definition announced {C} (w : World C) (a : Args) : World C :=
  mkWorld (fs w) (outside w) (stdout w ++ [announce a]) (stderr w).

(** The world in which [signOffline] reloads the draft: its first line is
    logged and the delay has passed. *)
Definition waited {C} (w : World C) (waitTime : Js.number) : World C :=
  mkWorld (fs w) (setTimeout_wait C waitTime (outside w))
    (stdout w ++ [[LStr "---Step 4---Signing transaction offline"]])
    (if setTimeout_overflows waitTime
     then stderr w ++ [timeout_overflow_warning waitTime]
     else stderr w).

(** The world a successful [executeTx] leaves: the outside state after the
    submission, and the identifier on standard output. *)
Definition broadcast {C} (w : World C) (o : Outside C) (sig : string)
    : World C :=
  mkWorld (fs w) o
    (stdout w ++ [[LStr "---Step 5---Executing transaction"]]
     ++ [[LStr "      Tx sent: "; LStr sig]])
    (stderr w).

(** ** Vocabulary for what a stage leaves alone *)

(** Every run of [m] takes a world to one related to it by [R]. *)
Definition keeps {C A} (R : World C -> World C -> Prop) (m : M C A) : Prop :=
  forall w, R w (snd (m w)).

(** The files at paths other than [ps] are the same in both worlds. *)
Definition files_outside {C} (ps : list string) (w w' : World C) : Prop :=
  forall p, p ∉ ps -> fs w' !! p = fs w !! p.

Fixpoint all_ws (s : string) : bool :=
  match s with
  | String c s' => Js.is_ws c && all_ws s'
  | EmptyString => true
  end.

(** The number with the opposite sign. *)
Definition negate (n : Js.number) : Js.number :=
  match n with
  | Js.NaN => Js.NaN
  | Js.JInf neg => Js.JInf (negb neg)
  | Js.JInt neg mag => Js.JInt (negb neg) mag
  end.

(** The string begins with neither white space nor a sign. *)
Definition plain_head (s : string) : bool :=
  match s with
  | String c _ =>
      negb (Js.is_ws c) && negb (Ascii.eqb c "-") && negb (Ascii.eqb c "+")
  | EmptyString => true
  end.

(** The usual decimal numeral of [n]. *)
Definition decimal_of_N (n : N) : string :=
  DecimalString.NilEmpty.string_of_uint (N.to_uint n).

(** The delay is a number from 0 to [TIMEOUT_MAX], which the timer takes
    without a warning. *)
Definition delay_in_range (n : Js.number) : bool :=
  match n with
  | Js.JInt false m => (m <=? TIMEOUT_MAX)%N
  | _ => false
  end.

(** The call returned rather than threw. *)
Definition succeeded {A} (r : result A) : bool :=
  match r with
  | inr _ => true
  | inl _ => false
  end.

(** The entry [createNonce] sends to standard error before rethrowing. *)
Definition nonce_failure_line (e : JsError) : LogLine :=
  [LStr "Failed to create nonce account: "; LErr e].

(** Further worlds of the reference collaborator. *)
Module Scenario.

(** A ledger that holds the nonce account and refuses every submission. *)
Definition ledger_refusing : Ref.Ledger :=
  Ref.mkLedger [("nonce", [Byte.x4e; Byte.x31])] "hash0" 7 false [] 0.

Definition world_refusing : World Ref.collab :=
  @mkWorld Ref.collab ∅ ledger_refusing [] [].

(** A world whose signed-artifact path holds a draft nobody signed. *)
Definition world_mislabeled : World Ref.collab :=
  snd (encodeAndWriteTransaction Ref.collab Ref.draft signed_path false
         Ref.world0).

(** The reference collaborator with no key material at hand: every call of
    [sign] throws. *)
Definition keyless : Collab := {|
  Outside := Ref.Ledger;
  NONCE_ACCOUNT_LENGTH := NONCE_ACCOUNT_LENGTH Ref.collab;
  SystemProgram_programId := SystemProgram_programId Ref.collab;
  required_signers := Ref.signers;
  tx_serialize := Ref.serialize;
  tx_from := Ref.from;
  tx_sign := fun _ _ => inl (mkError "missing key material");
  NonceAccount_fromAccountData := Ref.fromAccountData;
  bs58_encode := bs58_encode Ref.collab;
  bs58_decode := bs58_decode Ref.collab;
  Keypair_generate := Keypair_generate Ref.collab;
  getAccountInfo := getAccountInfo Ref.collab;
  getLatestBlockhash := getLatestBlockhash Ref.collab;
  getMinimumBalanceForRentExemption :=
    getMinimumBalanceForRentExemption Ref.collab;
  sendRawTransaction := Ref.send;
  confirmTransaction := confirmTransaction Ref.collab;
  setTimeout_wait := setTimeout_wait Ref.collab
|}.

Definition world_keyless : World keyless :=
  @mkWorld keyless ∅ Ref.ledger0 [] [].


End Scenario.

(** ** Properties of [parseInt] *)

Module JsFacts.

Import Js.

Lemma radix10_digit (c : ascii) :
  radix_digit 10 c = if is_dec_digit c then Some (N_of_ascii c - 48)%N else None.
Proof.
  destruct c as [[] [] [] [] [] [] [] []]; vm_compute; reflexivity.
Qed.

Lemma dec_digit_not_ws (c : ascii) : is_dec_digit c = true -> is_ws c = false.
Proof.
  unfold is_dec_digit, is_ws. generalize (N_of_ascii c). intros n H.
  apply andb_true_iff in H. destruct H as [H1 H2].
  apply N.leb_le in H1. apply N.leb_le in H2.
  repeat (apply orb_false_iff; split); apply N.eqb_neq; lia.
Qed.

Lemma dec_digit_neq (c d : ascii) :
  is_dec_digit c = true -> is_dec_digit d = false -> Ascii.eqb c d = false.
Proof.
  intros Hc Hd. apply Ascii.eqb_neq. intros ->. congruence.
Qed.

Lemma digits_prefix_dec (ds g : string) :
  all_dec_digits ds = true -> starts_with_dec_digit g = false ->
  forall acc,
    fold_left (fun a d => (a * 10 + d)%N) (digits_prefix 10 (ds ++ g)) acc
    = dec_value_from acc ds.
Proof.
  intros Hds Hg. induction ds as [|c ds IH]; intros acc; simpl.
  - destruct g as [|c g]; simpl; [reflexivity |].
    simpl in Hg. rewrite radix10_digit, Hg. reflexivity.
  - simpl in Hds. apply andb_true_iff in Hds. destruct Hds as [Hc Hds].
    rewrite radix10_digit, Hc. simpl. apply IH. exact Hds.
Qed.



Lemma parseInt_dec_prefix (ds g : string) :
  all_dec_digits ds = true -> ds <> "" ->
  starts_with_dec_digit g = false -> hex_marked ds g = false ->
  parseInt (ds ++ g) = to_number false (dec_value ds).
Proof.
  intros Hds Hne Hg Hhex.
  destruct ds as [|c ds]; [congruence |].
  pose proof Hds as Hall. simpl in Hds.
  apply andb_true_iff in Hds. destruct Hds as [Hc Hds].
  assert (Htrim : trim_start (String c ds ++ g) = String c ds ++ g).
  { simpl. rewrite (dec_digit_not_ws _ Hc). reflexivity. }
  assert (Hsign : strip_sign (String c ds ++ g) = (false, String c ds ++ g)).
  { simpl. rewrite !(dec_digit_neq c) by (exact Hc || reflexivity).
    reflexivity. }
  assert (Hradix : strip_radix (String c ds ++ g) = (10%N, String c ds ++ g)).
  { destruct (Ascii.eqb c "0") eqn:H0.
    - apply Ascii.eqb_eq in H0. subst c. destruct ds as [|d ds].
      + unfold hex_marked in Hhex. simpl in Hhex.
        destruct g as [|c1 g]; [reflexivity |]. simpl. simpl in Hhex.
        rewrite Hhex. reflexivity.
      + simpl in Hds. apply andb_true_iff in Hds. destruct Hds as [Hd _].
        simpl. rewrite !(dec_digit_neq d) by (exact Hd || reflexivity).
        reflexivity.
    - simpl. destruct (ds ++ g) as [|c1 r]; [reflexivity |].
      rewrite H0. reflexivity. }
  unfold parseInt. rewrite Htrim, Hsign, Hradix.
  pose proof (digits_prefix_dec _ _ Hall Hg 0%N) as Hval.
  destruct (digits_prefix 10 (String c ds ++ g)) as [|d l] eqn:Hp.
  - simpl in Hp. rewrite radix10_digit, Hc in Hp. discriminate Hp.
  - unfold digits_value. rewrite Hval. reflexivity.
Qed.

Lemma round_mag_small (m : N) : (m < 2 ^ 53)%N -> round_mag m = Some m.
Proof.
  intros H. unfold round_mag.
  destruct (N.ltb_spec m (2 ^ 53)); [reflexivity | lia].
Qed.

End JsFacts.

(** ** The command line *)

Lemma parse_loop_refused (rest : list string) (m : string) :
  refused rest m ->
  forall u t, parse_loop rest u t = (Exited 1, [m]).
Proof.
  induction 1 as [a rest Hu Hw | | rest m _ IH | v rest m _ IH]; intros u t.
  - simpl. apply String.eqb_neq in Hu. apply String.eqb_neq in Hw.
    rewrite Hu, Hw. reflexivity.
  - reflexivity.
  - simpl. apply IH.
  - simpl. apply IH.
Qed.

Lemma parse_loop_exits_refused_upto (n : nat) :
  forall rest u t code errs,
    length rest <= n ->
    parse_loop rest u t = (Exited code, errs) ->
    exists m, refused rest m /\ code = 1%Z /\ errs = [m].
Proof.
  induction n as [|n IH]; intros rest u t code errs Hlen H.
  - destruct rest; [discriminate H | simpl in Hlen; lia].
  - destruct rest as [|a rest]; [discriminate H |].
    simpl in H, Hlen. destruct (String.eqb a "-useNonce") eqn:Hu.
    + apply String.eqb_eq in Hu. subst a.
      apply IH in H; [| lia]. destruct H as (m & Hr & -> & ->).
      exists m. repeat split. constructor. exact Hr.
    + destruct (String.eqb a "-waitTime") eqn:Hw.
      * apply String.eqb_eq in Hw. subst a. destruct rest as [|v rest].
        -- injection H as <- <-. eexists. repeat split. constructor.
        -- apply IH in H; [| simpl in Hlen; lia].
           destruct H as (m & Hr & -> & ->).
           exists m. repeat split. constructor. exact Hr.
      * injection H as <- <-. eexists. repeat split.
        constructor; apply String.eqb_neq; assumption.
Qed.

(** The converse: the loop stops the process only on a refused line. *)
Lemma parse_loop_exits_refused (rest : list string) u t code errs :
  parse_loop rest u t = (Exited code, errs) ->
  exists m, refused rest m /\ code = 1%Z /\ errs = [m].
Proof. apply (parse_loop_exits_refused_upto (length rest)). lia. Qed.

(** C9, as amended.  With no flags the parser returns nonce mode off and a
    delay of 120000.  A command line is refused when the left-to-right scan,
    in which [-waitTime] takes the next argument as its value, meets an
    argument that is neither flag or a [-waitTime] with nothing after it:
    then the parser sends one line to standard error and exits with status
    1, and [main] ends with that status having run no stage (files, outside
    state and standard output are as before). *)
Theorem parseCommandLineArgs_defaults_and_refusals
    (C : Collab) (senderKeypair nonceAuthKeypair nonceKeypair : Keypair)
    (w : World C) (argv : list string) (m : string)
    (Hrefused : refused (drop 2 argv) m) :
  (forall node script,
      parseCommandLineArgs [node; script]
      = (Parsed (mkArgs false (Js.JInt false 120000)), []))
  /\ parseCommandLineArgs argv = (Exited 1, [m])
  /\ main C senderKeypair nonceAuthKeypair nonceKeypair argv w
     = (ProcessExit 1, refused_world w m)
  /\ exit_status
       (fst (main C senderKeypair nonceAuthKeypair nonceKeypair argv w))
     <> 0%Z.
Proof.
  assert (Hp : parseCommandLineArgs argv = (Exited 1, [m])).
  { unfold parseCommandLineArgs. apply parse_loop_refused. exact Hrefused. }
  split; [reflexivity |]. split; [exact Hp |].
  unfold main. rewrite Hp. split; [reflexivity | discriminate].
Qed.

Lemma parseCommandLineArgs_defaults_and_refusals_witness :
  refused (drop 2 ["node"; "app.ts"; "-useNonce"; "-waitTime"])
    err_waitTime_needs_arg
  /\ main Ref.collab Ref.sender Ref.authority Ref.nonceKey
       ["node"; "app.ts"; "-useNonce"; "-waitTime"] Ref.world0
     = (ProcessExit 1, refused_world Ref.world0 err_waitTime_needs_arg).
Proof.
  assert (H : refused (drop 2 ["node"; "app.ts"; "-useNonce"; "-waitTime"])
                err_waitTime_needs_arg).
  { simpl. apply refused_after_useNonce. apply refused_dangling. }
  split; [exact H |].
  exact (proj1 (proj2 (proj2
    (parseCommandLineArgs_defaults_and_refusals Ref.collab Ref.sender
       Ref.authority Ref.nonceKey Ref.world0 _ _ H)))).
Defined.

(** C9 as written fails: a command line whose last argument is the delay
    flag with nothing after it, and one that contains an argument that is no
    known flag, are both accepted when that argument directly follows
    [-waitTime]; nothing is sent to standard error and the process does not
    exit. *)
Lemma parseCommandLineArgs_literal_counterexample :
  last ["node"; "app.ts"; "-waitTime"; "-waitTime"] = Some "-waitTime"
  /\ parseCommandLineArgs ["node"; "app.ts"; "-waitTime"; "-waitTime"]
     = (Parsed (mkArgs false Js.NaN), [])
  /\ In "-bogus" ["node"; "app.ts"; "-waitTime"; "-bogus"]
  /\ "-bogus" <> "-useNonce" /\ "-bogus" <> "-waitTime"
  /\ parseCommandLineArgs ["node"; "app.ts"; "-waitTime"; "-bogus"]
     = (Parsed (mkArgs false Js.NaN), [])
  /\ fst (main Ref.collab Ref.sender Ref.authority Ref.nonceKey
            ["node"; "app.ts"; "-waitTime"; "-bogus"] Ref.world0)
     = Completed.
Proof.
  repeat split; try reflexivity; try discriminate.
  simpl. tauto.
Qed.



(** ** The monad and the codec *)

Section Codec.

Context (C : Collab).

Lemma bind_inr {A B} (m : M C A) (k : A -> M C B) w a w1 :
  m w = (inr a, w1) -> bind m k w = k a w1.
Proof. unfold bind. intros ->. reflexivity. Qed.

Lemma bind_inl {A B} (m : M C A) (k : A -> M C B) w e w1 :
  m w = (inl e, w1) -> bind m k w = (inl e, w1).
Proof. unfold bind. intros ->. reflexivity. Qed.

Lemma bind_inr_inv {A B} (m : M C A) (k : A -> M C B) w b w2 :
  bind m k w = (inr b, w2) ->
  exists a w1, m w = (inr a, w1) /\ k a w1 = (inr b, w2).
Proof.
  unfold bind. destruct (m w) as [[e | a] w1]; [discriminate |].
  intros H. exists a, w1. split; [reflexivity | exact H].
Qed.

Lemma bind_inl_inv {A B} (m : M C A) (k : A -> M C B) w e w2 :
  bind m k w = (inl e, w2) ->
  m w = (inl e, w2)
  \/ exists a w1, m w = (inr a, w1) /\ k a w1 = (inl e, w2).
Proof.
  unfold bind. destruct (m w) as [[e' | a] w1]; intros H.
  - left. injection H as -> ->. reflexivity.
  - right. exists a, w1. split; [reflexivity | exact H].
Qed.

Lemma encodeAndWrite_throws tx filename r e (w : World C) :
  tx_serialize C r tx = inl e ->
  encodeAndWriteTransaction C tx filename r w = (inl e, w).
Proof.
  intros H. unfold encodeAndWriteTransaction, bind, lift_result.
  rewrite H. reflexivity.
Qed.

Lemma encodeAndWrite_writes tx filename r raw (w : World C) :
  tx_serialize C r tx = inr raw ->
  encodeAndWriteTransaction C tx filename r w
  = (inr (bs58_encode C raw), written w filename (bs58_encode C raw)).
Proof.
  intros H. unfold encodeAndWriteTransaction, bind, lift_result.
  rewrite H. reflexivity.
Qed.

Lemma readAndDecode_reload filename (w : World C) :
  readAndDecodeTransaction C filename w
  = (reload C filename (fs w !! filename), w).
Proof.
  unfold readAndDecodeTransaction, reload, bind, readFileSync, lift_result, ret.
  destruct (fs w !! filename) as [data |]; [| reflexivity].
  destruct (bs58_decode C data) as [e | decoded]; [reflexivity |].
  destruct (tx_from C decoded); reflexivity.
Qed.

End Codec.

(** C1.  A write with [requireAllSignatures = true] of a transaction with a
    required signer slot empty throws and leaves the whole world as it was:
    no file is created at the path and a file already there keeps its
    content.  When the slots are filled the write succeeds, the file holds
    the returned text, and the text is the same from every world, so a
    repeated write changes nothing.  The serialiser is the library's; its
    contract at [tx] (it rejects a required slot left empty, it serialises a
    transaction whose slots are filled) is what the two hypotheses state. *)
Theorem encodeAndWriteTransaction_fail_closed
    (C : Collab) (tx : Transaction) (p : string) (w : World C)
    (Hrejects : missing_signature C tx = true ->
                exists e, tx_serialize C true tx = inl e)
    (Haccepts : missing_signature C tx = false ->
                exists raw, tx_serialize C true tx = inr raw) :
  (missing_signature C tx = true ->
   exists e,
     encodeAndWriteTransaction C tx p true w = (inl e, w)
     /\ fs (snd (encodeAndWriteTransaction C tx p true w)) !! p = fs w !! p)
  /\ (missing_signature C tx = false ->
      exists s,
        encodeAndWriteTransaction C tx p true w = (inr s, written w p s)
        /\ fs (written w p s) !! p = Some s
        /\ (forall w' : World C,
               encodeAndWriteTransaction C tx p true w'
               = (inr s, written w' p s))
        /\ fs (written (written w p s) p s) = fs (written w p s)).
Proof.
  split; intros Hm.
  - destruct (Hrejects Hm) as [e He]. exists e.
    rewrite (encodeAndWrite_throws C _ _ _ _ w He). split; reflexivity.
  - destruct (Haccepts Hm) as [raw Hraw]. exists (bs58_encode C raw).
    split; [apply encodeAndWrite_writes; exact Hraw |].
    split; [simpl; apply lookup_insert_eq |].
    split; [intros w'; apply encodeAndWrite_writes; exact Hraw |].
    simpl. apply insert_insert_eq.
Qed.

Lemma encodeAndWriteTransaction_fail_closed_witness :
  (exists e,
      encodeAndWriteTransaction Ref.collab Ref.draft signed_path true
        Ref.world_stale = (inl e, Ref.world_stale)
      /\ fs (snd (encodeAndWriteTransaction Ref.collab Ref.draft signed_path
                    true Ref.world_stale)) !! signed_path
         = fs Ref.world_stale !! signed_path)
  /\ (exists s,
         encodeAndWriteTransaction Ref.collab Ref.draft_signed signed_path
           true Ref.world_stale
         = (inr s, written Ref.world_stale signed_path s)).
Proof.
  split.
  - apply (encodeAndWriteTransaction_fail_closed Ref.collab Ref.draft
             signed_path Ref.world_stale).
    + intros _. eexists. vm_compute. reflexivity.
    + intros H. vm_compute in H. discriminate H.
    + vm_compute. reflexivity.
  - destruct (encodeAndWriteTransaction_fail_closed Ref.collab
                Ref.draft_signed signed_path Ref.world_stale)
      as [_ Hok].
    + intros H. vm_compute in H. discriminate H.
    + intros _. eexists. vm_compute. reflexivity.
    + destruct (Hok ltac:(vm_compute; reflexivity)) as (s & Hs & _).
      exists s. exact Hs.
Defined.

(** ** The stages *)

Section Stages.

Context (C : Collab).
Variables senderKeypair nonceAuthKeypair nonceKeypair : Keypair.

Local Abbreviation createTx' := (createTx C senderKeypair nonceAuthKeypair nonceKeypair).
Local Abbreviation createNonce' := (createNonce C nonceAuthKeypair nonceKeypair).
Local Abbreviation signOffline' := (signOffline C senderKeypair nonceAuthKeypair).

Lemma console_log_inv l (w w0 : World C) x :
  console_log l w = (inr x, w0) ->
  w0 = mkWorld (fs w) (outside w) (stdout w ++ [l]) (stderr w).
Proof. unfold console_log. intros H. injection H as _ <-. reflexivity. Qed.

Lemma lift_outside_inv {A} (f : Outside C -> A * Outside C) (w w0 : World C) a :
  lift_outside f w = (inr a, w0) ->
  exists o, f (outside w) = (a, o)
            /\ w0 = mkWorld (fs w) o (stdout w) (stderr w).
Proof.
  unfold lift_outside. destruct (f (outside w)) as [a' o]. intros H.
  injection H as -> <-. exists o. split; reflexivity.
Qed.

Lemma call_outside_inv {A} (f : Outside C -> result A * Outside C)
    (w w0 : World C) r :
  call_outside f w = (r, w0) ->
  exists o, f (outside w) = (r, o)
            /\ w0 = mkWorld (fs w) o (stdout w) (stderr w).
Proof.
  unfold call_outside. destruct (f (outside w)) as [r' o]. intros H.
  injection H as -> <-. exists o. split; reflexivity.
Qed.

Lemma lift_result_inv {A} (r r' : result A) (w w0 : World C) :
  lift_result r w = (r', w0) -> r' = r /\ w0 = w.
Proof. unfold lift_result. intros H. injection H as <- <-. split; reflexivity. Qed.

Lemma encodeAndWrite_inr_inv tx filename r s (w w1 : World C) :
  encodeAndWriteTransaction C tx filename r w = (inr s, w1) ->
  exists raw, tx_serialize C r tx = inr raw /\ s = bs58_encode C raw
              /\ w1 = written w filename s.
Proof.
  intros H. destruct (tx_serialize C r tx) as [e | raw] eqn:Hs.
  - rewrite (encodeAndWrite_throws C _ _ _ _ w Hs) in H. discriminate H.
  - rewrite (encodeAndWrite_writes C _ _ _ _ w Hs) in H.
    injection H as <- <-. exists raw. repeat split.
Qed.

Lemma fetchNonceInfo_inv (w w1 : World C) na :
  fetchNonceInfo C nonceKeypair w = (inr na, w1) ->
  exists data o,
    getAccountInfo C (publicKey nonceKeypair) (outside w)
    = (inr (Some data), o)
    /\ NonceAccount_fromAccountData C data = inr na
    /\ fs w1 = fs w /\ outside w1 = o.
Proof.
  unfold fetchNonceInfo. intros H.
  apply bind_inr_inv in H. destruct H as (info & w0 & Hcall & H).
  apply call_outside_inv in Hcall. destruct Hcall as (o & Hcall & ->).
  destruct info as [data |]; [| discriminate H].
  apply bind_inr_inv in H. destruct H as (na' & w2 & Hna & H).
  apply lift_result_inv in Hna. destruct Hna as [Hna ->].
  apply bind_inr_inv in H. destruct H as (? & w3 & Hl1 & H).
  apply console_log_inv in Hl1. subst w3.
  apply bind_inr_inv in H. destruct H as (? & w4 & Hl2 & H).
  apply console_log_inv in Hl2. subst w4.
  injection H as -> <-. exists data, o. repeat split; [exact Hcall | congruence].
Qed.

(** C3.  [createTx] builds in both modes.  In nonce mode, when the nonce
    account is read, the artifact written is the serialisation (signatures
    not required) of the nonce advance, at index 0, followed by the transfer,
    with the nonce read from the account as validity reference; in blockhash
    mode, when the blockhash is fetched, it is the serialisation of the
    transfer alone with that blockhash; the fee payer is the sender either
    way.  Every successful run is of one of these two forms: in nonce mode
    the first instruction is the nonce advance, in blockhash mode no
    instruction is a nonce advance. *)
Theorem createTx_builds (u : bool) (w : World C) :
  (forall destination o1 data na o2 raw,
      Keypair_generate C (outside w) = (destination, o1) ->
      getAccountInfo C (publicKey nonceKeypair) o1 = (inr (Some data), o2) ->
      NonceAccount_fromAccountData C data = inr na ->
      tx_serialize C false
        (mkTransaction
           [nonceAdvance (publicKey nonceAuthKeypair) (publicKey nonceKeypair);
            transfer (publicKey senderKeypair) (publicKey destination)
              TRANSFER_AMOUNT]
           (Some (publicKey senderKeypair)) (Some (nonce na)) None [])
      = inr raw ->
      createTx' true w
      = (inr (bs58_encode C raw),
         written
           (mkWorld (fs w) o2
              (((stdout w ++ [[LStr "---Step 3---Creating transaction"]])
                ++ [[LStr "      Auth:"; LStr (authorizedPubkey_of na)]])
               ++ [[LStr "      Nonce:"; LStr (nonce na)]])
              (stderr w))
           unsigned_path (bs58_encode C raw)))
  /\ (forall destination o1 blockhash lastValid o2 raw,
         Keypair_generate C (outside w) = (destination, o1) ->
         getLatestBlockhash C o1 = (inr (blockhash, lastValid), o2) ->
         tx_serialize C false
           (mkTransaction
              [transfer (publicKey senderKeypair) (publicKey destination)
                 TRANSFER_AMOUNT]
              (Some (publicKey senderKeypair)) (Some blockhash) None [])
         = inr raw ->
         createTx' false w
         = (inr (bs58_encode C raw),
            written
              (mkWorld (fs w) o2
                 (stdout w ++ [[LStr "---Step 3---Creating transaction"]])
                 (stderr w))
              unsigned_path (bs58_encode C raw)))
  /\ (forall s w1,
         createTx' u w = (inr s, w1) ->
         exists (destination : Keypair) (o1 : Outside C) (tx : Transaction)
                (raw : bytes),
           Keypair_generate C (outside w) = (destination, o1)
           /\ tx_serialize C false tx = inr raw
           /\ s = bs58_encode C raw
           /\ fs w1 = <[unsigned_path := s]> (fs w)
           /\ feePayer tx = Some (publicKey senderKeypair)
           /\ signatures tx = []
           /\ if u then
                instructions tx
                = [nonceAdvance (publicKey nonceAuthKeypair)
                     (publicKey nonceKeypair);
                   transfer (publicKey senderKeypair) (publicKey destination)
                     TRANSFER_AMOUNT]
                /\ instructions tx !! 0%nat
                   = Some (nonceAdvance (publicKey nonceAuthKeypair)
                             (publicKey nonceKeypair))
                /\ exists data na o2,
                     getAccountInfo C (publicKey nonceKeypair) o1
                     = (inr (Some data), o2)
                     /\ NonceAccount_fromAccountData C data = inr na
                     /\ recentBlockhash tx = Some (nonce na)
                     /\ outside w1 = o2
              else
                instructions tx
                = [transfer (publicKey senderKeypair) (publicKey destination)
                     TRANSFER_AMOUNT]
                /\ existsb is_nonceAdvance (instructions tx) = false
                /\ exists blockhash lastValid o2,
                     getLatestBlockhash C o1 = (inr (blockhash, lastValid), o2)
                     /\ recentBlockhash tx = Some blockhash
                     /\ outside w1 = o2).
Proof.
  split; [| split].
  - intros dest o1 data na o2 raw Hgen Hacc Hna Hser.
    unfold createTx, bind at 1 2 3, console_log at 1, lift_outside. simpl.
    rewrite Hgen. simpl.
    unfold bind at 1, fetchNonceInfo, bind at 1, call_outside. simpl.
    rewrite Hacc. unfold bind at 1, lift_result at 1. rewrite Hna.
    unfold bind at 1 2, console_log, ret. simpl.
    apply (encodeAndWrite_writes C _ _ _ _ _ Hser).
  - intros dest o1 bh lv o2 raw Hgen Hbh Hser.
    unfold createTx, bind at 1 2 3, console_log at 1, lift_outside. simpl.
    rewrite Hgen. simpl.
    unfold bind at 1, call_outside, ret. simpl. rewrite Hbh. simpl.
    apply (encodeAndWrite_writes C _ _ _ _ _ Hser).
  - intros s w1 Hrun. unfold createTx in Hrun.
    apply bind_inr_inv in Hrun. destruct Hrun as (? & w0 & Hlog & H).
    apply console_log_inv in Hlog. subst w0.
    apply bind_inr_inv in H. destruct H as (dest & wg & Hgen & H).
    apply lift_outside_inv in Hgen. destruct Hgen as (o1 & Hgen & ->).
    simpl in Hgen.
    apply bind_inr_inv in H. destruct H as (tx & wt & Htx & H).
    apply encodeAndWrite_inr_inv in H. destruct H as (raw & Hser & Hs & ->).
    exists dest, o1, (set_feePayer (publicKey senderKeypair) tx), raw.
    split; [exact Hgen |]. split; [exact Hser |]. split; [exact Hs |].
    destruct u.
    + apply bind_inr_inv in Htx. destruct Htx as (na & wn & Hna & Hret).
      injection Hret as <- <-.
      apply fetchNonceInfo_inv in Hna.
      destruct Hna as (data & o2 & Hacc & Hdec & Hfs & Hout). simpl in *.
      split; [rewrite Hfs; reflexivity |].
      repeat split. exists data, na, o2. repeat split; assumption.
    + apply bind_inr_inv in Htx. destruct Htx as ([bh lv] & wn & Hbh & Hret).
      injection Hret as <- <-.
      apply call_outside_inv in Hbh. destruct Hbh as (o2 & Hbh & ->).
      simpl in *. repeat split. exists bh, lv, o2. repeat split. exact Hbh.
Qed.

Lemma try_catch_inr_inv {A} (m : M C A) (h : JsError -> M C A) w a w1 :
  try_catch m h w = (inr a, w1) ->
  m w = (inr a, w1)
  \/ exists e w0, m w = (inl e, w0) /\ h e w0 = (inr a, w1).
Proof.
  unfold try_catch. destruct (m w) as [[e | a'] w0]; intros H.
  - right. exists e, w0. split; [reflexivity | exact H].
  - left. exact H.
Qed.

(** C7.  When [createNonce] succeeds it has asked for the rent-exempt
    minimum of the nonce record's size and for the latest blockhash, built
    one transaction (create-account of that size and rent owned by the
    system program, then nonce-initialize authorising the nonce authority;
    fee payer the nonce authority; validity reference that blockhash),
    signed it with the nonce-account key and the nonce-authority key,
    submitted the serialisation of the signed transaction once, and waited
    for its confirmation, in that order. *)
Theorem createNonce_provisions (w w1 : World C)
    (Hrun : createNonce' w = (inr tt, w1)) :
  exists rent o1 blockhash lastValid o2 tx signedTx raw signature o3 status o4,
    getMinimumBalanceForRentExemption C (NONCE_ACCOUNT_LENGTH C) (outside w)
    = (inr rent, o1)
    /\ getLatestBlockhash C o1 = (inr (blockhash, lastValid), o2)
    /\ instructions tx
       = [createAccount (publicKey nonceAuthKeypair) (publicKey nonceKeypair)
            rent (NONCE_ACCOUNT_LENGTH C) (SystemProgram_programId C);
          nonceInitialize (publicKey nonceKeypair) (publicKey nonceAuthKeypair)]
    /\ feePayer tx = Some (publicKey nonceAuthKeypair)
    /\ recentBlockhash tx = Some blockhash
    /\ lastValidBlockHeight tx = Some lastValid
    /\ signatures tx = []
    /\ tx_sign C [nonceKeypair; nonceAuthKeypair] tx = inr signedTx
    /\ tx_serialize C true signedTx = inr raw
    /\ sendRawTransaction C raw o2 = (inr signature, o3)
    /\ confirmTransaction C signature blockhash lastValid o3 = (inr status, o4)
    /\ outside w1 = o4
    /\ fs w1 = fs w.
Proof.
  unfold createNonce in Hrun.
  apply bind_inr_inv in Hrun. destruct Hrun as (? & w0 & Hlog & H).
  apply console_log_inv in Hlog. subst w0.
  apply bind_inr_inv in H. destruct H as (rent & wr & Hrent & H).
  apply call_outside_inv in Hrent. destruct Hrent as (o1 & Hrent & ->).
  apply bind_inr_inv in H. destruct H as ([bh lv] & wb & Hbh & H).
  apply call_outside_inv in Hbh. destruct Hbh as (o2 & Hbh & ->).
  apply bind_inr_inv in H. destruct H as (stx & ws & Hsign & H).
  apply lift_result_inv in Hsign. destruct Hsign as [Hsign ->].
  apply try_catch_inr_inv in H. destruct H as [H | (e & wc & _ & H)].
  2:{ apply bind_inr_inv in H. destruct H as (? & ? & _ & H). discriminate H. }
  apply bind_inr_inv in H. destruct H as (raw & wx & Hraw & H).
  apply lift_result_inv in Hraw. destruct Hraw as [Hraw ->].
  apply bind_inr_inv in H. destruct H as (sig & wy & Hsend & H).
  apply call_outside_inv in Hsend. destruct Hsend as (o3 & Hsend & ->).
  apply bind_inr_inv in H. destruct H as (status & wz & Hconf & H).
  apply call_outside_inv in Hconf. destruct Hconf as (o4 & Hconf & ->).
  apply console_log_inv in H. subst w1. simpl in *.
  exists rent, o1, bh, lv, o2, (newNonceTx C nonceAuthKeypair nonceKeypair rent bh lv),
    stx, raw, sig, o3, status, o4.
  repeat split; try assumption; symmetry; assumption.
Qed.

Lemma signOffline_unfold (waitTime : Js.number) (u : bool) (w : World C) :
  signOffline' waitTime u w
  = match reload C unsigned_path (fs w !! unsigned_path) with
    | inl e => (inl e, waited w waitTime)
    | inr unsignedTx =>
        match tx_sign C
                (offline_signers senderKeypair nonceAuthKeypair u)
                unsignedTx with
        | inl e => (inl e, waited w waitTime)
        | inr signedTx =>
            encodeAndWriteTransaction C signedTx signed_path true
              (waited w waitTime)
        end
    end.
Proof.
  assert (Hsleep :
    forall w0 : World C,
      sleep C waitTime w0
      = (inr tt,
         mkWorld (fs w0) (setTimeout_wait C waitTime (outside w0)) (stdout w0)
           (if setTimeout_overflows waitTime
            then stderr w0 ++ [timeout_overflow_warning waitTime]
            else stderr w0))).
  { intros w0. unfold sleep, bind, console_error, ret, lift_outside.
    destruct (setTimeout_overflows waitTime); reflexivity. }
  unfold signOffline, bind at 1 2 3, console_log. rewrite Hsleep.
  rewrite readAndDecode_reload. simpl.
  change (mkWorld (fs w) (setTimeout_wait C waitTime (outside w)) _ _)
    with (waited w waitTime).
  destruct (reload C unsigned_path (fs w !! unsigned_path)) as [e | utx];
    [reflexivity |].
  unfold bind, lift_result.
  destruct (tx_sign C _ utx) as [e | stx]; reflexivity.
Qed.

(** C4.  [signOffline] reloads the unsigned artifact, signs it with the
    nonce-authority key and the sender key in nonce mode and with the sender
    key alone in blockhash mode, and writes the result to the signed
    artifact with [requireAllSignatures = true]: when it succeeds the signed
    artifact is that serialisation, and when the serialiser refuses the
    signed transaction, as it does for a missing required signature, the
    stage throws and no file is touched. *)
Theorem signOffline_signs_and_requires_all
    (waitTime : Js.number) (u : bool) (w : World C)
    (unsignedTx signedTx : Transaction)
    (Hreload : reload C unsigned_path (fs w !! unsigned_path) = inr unsignedTx)
    (Hsign : tx_sign C
               (if u then [nonceAuthKeypair; senderKeypair]
                else [senderKeypair]) unsignedTx = inr signedTx) :
  signOffline' waitTime u w
  = encodeAndWriteTransaction C signedTx signed_path true (waited w waitTime)
  /\ (forall raw, tx_serialize C true signedTx = inr raw ->
      signOffline' waitTime u w
      = (inr (bs58_encode C raw),
         written (waited w waitTime) signed_path (bs58_encode C raw)))
  /\ (forall e, tx_serialize C true signedTx = inl e ->
      signOffline' waitTime u w = (inl e, waited w waitTime)
      /\ fs (snd (signOffline' waitTime u w)) = fs w)
  /\ (missing_signature C signedTx = true ->
      (exists e, tx_serialize C true signedTx = inl e) ->
      exists e, fst (signOffline' waitTime u w) = inl e
                /\ fs (snd (signOffline' waitTime u w)) = fs w).
Proof.
  assert (Heq : signOffline' waitTime u w
                = encodeAndWriteTransaction C signedTx signed_path true
                    (waited w waitTime)).
  { rewrite signOffline_unfold, Hreload. unfold offline_signers.
    rewrite Hsign. reflexivity. }
  split; [exact Heq |]. rewrite Heq.
  split; [intros raw Hraw; apply encodeAndWrite_writes; exact Hraw |].
  split.
  - intros e He. rewrite (encodeAndWrite_throws C _ _ _ _ _ He).
    split; reflexivity.
  - intros _ [e He]. exists e. rewrite (encodeAndWrite_throws C _ _ _ _ _ He).
    split; reflexivity.
Qed.

Lemma unsigned_signed_distinct : unsigned_path <> signed_path.
Proof. discriminate. Qed.

(** C6.  The signed artifact depends only on the content of the unsigned
    artifact, the keys and the mode: a run of [signOffline] that succeeded
    with text [s] gives the same [s], and the same signed file, from any
    world holding the same unsigned artifact, whatever the delay; in
    particular from the world the first run left. *)
Theorem signOffline_rerun_identical
    (waitTime waitTime' : Js.number) (u : bool) (w w1 w' : World C)
    (s : string)
    (Hrun : signOffline' waitTime u w = (inr s, w1))
    (Hsame : fs w' !! unsigned_path = fs w !! unsigned_path) :
  fs w1 !! signed_path = Some s
  /\ (exists w1', signOffline' waitTime' u w' = (inr s, w1')
                  /\ fs w1' !! signed_path = Some s)
  /\ (exists w2, signOffline' waitTime' u w1 = (inr s, w2)
                 /\ fs w2 = fs w1).
Proof.
  rewrite signOffline_unfold in Hrun.
  destruct (reload C unsigned_path (fs w !! unsigned_path)) as [e | utx] eqn:Hre;
    [discriminate Hrun |].
  destruct (tx_sign C _ utx) as [e | stx] eqn:Hsg; [discriminate Hrun |].
  apply encodeAndWrite_inr_inv in Hrun. destruct Hrun as (raw & Hraw & -> & ->).
  assert (Hgen : forall w0 : World C,
             fs w0 !! unsigned_path = fs w !! unsigned_path ->
             signOffline' waitTime' u w0
             = (inr (bs58_encode C raw),
                written (waited w0 waitTime') signed_path (bs58_encode C raw))).
  { intros w0 H0. rewrite signOffline_unfold, H0, Hre, Hsg.
    apply encodeAndWrite_writes. exact Hraw. }
  split; [simpl; apply lookup_insert_eq |]. split.
  - eexists. split; [apply Hgen; exact Hsame |]. simpl. apply lookup_insert_eq.
  - eexists. split.
    + apply Hgen. simpl. apply lookup_insert_ne.
      intros H. symmetry in H. exact (unsigned_signed_distinct H).
    + simpl. apply insert_insert_eq.
Qed.

Lemma executeTx_unfold (w : World C) :
  executeTx C w
  = let w0 := mkWorld (fs w) (outside w)
                (stdout w ++ [[LStr "---Step 5---Executing transaction"]])
                (stderr w) in
    match reload C signed_path (fs w !! signed_path) with
    | inl e => (inl e, w0)
    | inr signedTx =>
        match tx_serialize C true signedTx with
        | inl e => (inl e, w0)
        | inr raw =>
            match sendRawTransaction C raw (outside w) with
            | (inl e, o) =>
                (inl e, mkWorld (fs w0) o (stdout w0) (stderr w0))
            | (inr sig, o) => (inr undefined, broadcast w o sig)
            end
        end
    end.
Proof.
  unfold executeTx, bind at 1 2, console_log. simpl.
  rewrite readAndDecode_reload. simpl.
  destruct (reload C signed_path (fs w !! signed_path)) as [e | stx];
    [reflexivity |].
  unfold bind, lift_result, call_outside, console_log, ret, broadcast. simpl.
  destruct (tx_serialize C true stx) as [e | raw]; [reflexivity |].
  destruct (sendRawTransaction C raw (outside w)) as [[e | sig] o]; simpl;
    [reflexivity |].
  rewrite <- app_assoc. reflexivity.
Qed.

(** C8, as amended.  When the signed artifact reloads, serialises and is
    accepted by the ledger, [executeTx] submits those wire bytes once and
    writes the identifier the ledger assigned to standard output; what it
    hands back to its caller is [undefined], not the identifier.  Every
    successful run is of that form. *)
Theorem executeTx_submits_and_logs (w : World C) :
  (forall signedTx raw sig o,
      reload C signed_path (fs w !! signed_path) = inr signedTx ->
      tx_serialize C true signedTx = inr raw ->
      sendRawTransaction C raw (outside w) = (inr sig, o) ->
      executeTx C w = (inr undefined, broadcast w o sig))
  /\ (forall v w1,
         executeTx C w = (inr v, w1) ->
         v = undefined
         /\ exists signedTx raw sig o,
              reload C signed_path (fs w !! signed_path) = inr signedTx
              /\ tx_serialize C true signedTx = inr raw
              /\ sendRawTransaction C raw (outside w) = (inr sig, o)
              /\ w1 = broadcast w o sig).
Proof.
  split.
  - intros stx raw sig o Hre Hraw Hsend.
    rewrite executeTx_unfold, Hre. simpl. rewrite Hraw, Hsend. reflexivity.
  - intros v w1 H. rewrite executeTx_unfold in H. simpl in H.
    destruct (reload C signed_path (fs w !! signed_path)) as [e | stx] eqn:Hre;
      [discriminate H |].
    destruct (tx_serialize C true stx) as [e | raw] eqn:Hraw;
      [discriminate H |].
    destruct (sendRawTransaction C raw (outside w)) as [[e | sig] o] eqn:Hsend;
      [discriminate H |].
    injection H as <- <-. split; [reflexivity |].
    exists stx, raw, sig, o. repeat split; first [assumption | reflexivity].
Qed.

Local Abbreviation main' :=
  (main C senderKeypair nonceAuthKeypair nonceKeypair).
Local Abbreviation pipeline' :=
  (pipeline C senderKeypair nonceAuthKeypair nonceKeypair).

Lemma main_parsed (argv : list string) (a : Args) (errs : list string)
    (w : World C) :
  parseCommandLineArgs argv = (Parsed a, errs) ->
  main' argv w
  = (Completed,
     match pipeline' a (announced w a) with
     | (inr _, w1) => w1
     | (inl e, w1) => reported w1 e
     end).
Proof.
  intros Hp. unfold main. rewrite Hp. f_equal.
  unfold bind at 1, console_log, try_catch. simpl.
  change (mkWorld (fs w) (outside w) (stdout w ++ [announce a]) (stderr w))
    with (announced w a).
  destruct (pipeline' a (announced w a)) as [[e | []] w1]; reflexivity.
Qed.

(** C5, as amended.  When a stage throws, no later stage runs: the world
    [main] ends in is the one the failing stage left, with the thrown error
    as one more entry on standard error.  [main] itself returns normally, so
    the exit status is zero. *)
Theorem main_reports_stage_error (argv : list string) (a : Args)
    (errs : list string) (w : World C)
    (Hparse : parseCommandLineArgs argv = (Parsed a, errs)) :
  (forall e w1,
      createNonce' (announced w a) = (inl e, w1) ->
      main' argv w = (Completed, reported w1 e))
  /\ (forall w2 e w1,
         createNonce' (announced w a) = (inr tt, w2) ->
         createTx' (useNonce a) w2 = (inl e, w1) ->
         main' argv w = (Completed, reported w1 e))
  /\ (forall w2 s3 w3 e w1,
         createNonce' (announced w a) = (inr tt, w2) ->
         createTx' (useNonce a) w2 = (inr s3, w3) ->
         signOffline' (waitTime a) (useNonce a) w3 = (inl e, w1) ->
         main' argv w = (Completed, reported w1 e))
  /\ (forall w2 s3 w3 s4 w4 e w1,
         createNonce' (announced w a) = (inr tt, w2) ->
         createTx' (useNonce a) w2 = (inr s3, w3) ->
         signOffline' (waitTime a) (useNonce a) w3 = (inr s4, w4) ->
         executeTx C w4 = (inl e, w1) ->
         main' argv w = (Completed, reported w1 e))
  /\ exit_status (fst (main' argv w)) = 0%Z.
Proof.
  rewrite (main_parsed _ _ _ w Hparse). unfold pipeline.
  split; [| split; [| split; [| split; [| reflexivity]]]].
  - intros e w1 H1. rewrite (bind_inl C _ _ _ _ _ H1). reflexivity.
  - intros w2 e w1 H1 H2. rewrite (bind_inr C _ _ _ _ _ H1).
    rewrite (bind_inl C _ _ _ _ _ H2). reflexivity.
  - intros w2 s3 w3 e w1 H1 H2 H3. rewrite (bind_inr C _ _ _ _ _ H1).
    rewrite (bind_inr C _ _ _ _ _ H2). rewrite (bind_inl C _ _ _ _ _ H3).
    reflexivity.
  - intros w2 s3 w3 s4 w4 e w1 H1 H2 H3 H4. rewrite (bind_inr C _ _ _ _ _ H1).
    rewrite (bind_inr C _ _ _ _ _ H2). rewrite (bind_inr C _ _ _ _ _ H3).
    rewrite (bind_inl C _ _ _ _ _ H4). reflexivity.
Qed.

End Stages.

(** ** The stages on the reference collaborator *)

(** A branch in which a run that succeeds on the reference collaborator is
    supposed to have thrown. *)
Ltac must_succeed Hrun :=
  exfalso;
  match type of Hrun with
  | ?x = _ =>
      let Hok := fresh "Hok" in
      assert (Hok : succeeded (fst x) = true) by (vm_compute; reflexivity);
      rewrite Hrun in Hok; discriminate Hok
  end.

Lemma run_result {A B} (p : A * B) (a : A) : fst p = a -> p = (a, snd p).
Proof. destruct p as [a' b]. simpl. intros ->. reflexivity. Qed.

Lemma createTx_builds_witness :
  (exists raw w1,
      createTx Ref.collab Ref.sender Ref.authority Ref.nonceKey true Ref.world0
      = (inr (bs58_encode Ref.collab raw), w1)
      /\ tx_serialize Ref.collab false
           (mkTransaction
              [nonceAdvance "authority" "nonce";
               transfer "sender" "0-generated" TRANSFER_AMOUNT]
              (Some "sender") (Some "N1") None []) = inr raw
      /\ fs w1 !! unsigned_path = Some (bs58_encode Ref.collab raw))
  /\ (exists raw w1,
         createTx Ref.collab Ref.sender Ref.authority Ref.nonceKey false
           Ref.world0
         = (inr (bs58_encode Ref.collab raw), w1)
         /\ tx_serialize Ref.collab false
              (mkTransaction
                 [transfer "sender" "0-generated" TRANSFER_AMOUNT]
                 (Some "sender") (Some "hash0") None []) = inr raw
         /\ fs w1 !! unsigned_path = Some (bs58_encode Ref.collab raw)).
Proof.
  destruct (createTx_builds Ref.collab Ref.sender Ref.authority Ref.nonceKey
              true Ref.world0) as (Hnonce & Hblockhash & _).
  split.
  - destruct (tx_serialize Ref.collab false
                (mkTransaction
                   [nonceAdvance "authority" "nonce";
                    transfer "sender" "0-generated" TRANSFER_AMOUNT]
                   (Some "sender") (Some "N1") None [])) as [e | raw] eqn:Hraw;
      [vm_compute in Hraw; discriminate Hraw |].
    exists raw. eexists. split; [| split; [reflexivity |]].
    + exact (Hnonce (mkKeypair "0-generated" []) _ [Byte.x4e; Byte.x31]
               (mkNonceAccount "authority" "N1") _ raw eq_refl eq_refl eq_refl
               Hraw).
    + simpl. apply lookup_insert_eq.
  - destruct (tx_serialize Ref.collab false
                (mkTransaction
                   [transfer "sender" "0-generated" TRANSFER_AMOUNT]
                   (Some "sender") (Some "hash0") None [])) as [e | raw] eqn:Hraw;
      [vm_compute in Hraw; discriminate Hraw |].
    exists raw. eexists. split; [| split; [reflexivity |]].
    + exact (Hblockhash (mkKeypair "0-generated" []) _ "hash0" 157%N _ raw
               eq_refl eq_refl Hraw).
    + simpl. apply lookup_insert_eq.
Defined.

Lemma createNonce_provisions_witness :
  exists w1 tx signedTx,
    createNonce Ref.collab Ref.authority Ref.nonceKey Ref.world0 = (inr tt, w1)
    /\ instructions tx
       = [createAccount "authority" "nonce" 1447680 80
            "11111111111111111111111111111111";
          nonceInitialize "nonce" "authority"]
    /\ feePayer tx = Some "authority"
    /\ tx_sign Ref.collab [Ref.nonceKey; Ref.authority] tx = inr signedTx.
Proof.
  destruct (createNonce Ref.collab Ref.authority Ref.nonceKey Ref.world0)
    as [[e | []] w1] eqn:Hrun; [must_succeed Hrun |].
  destruct (createNonce_provisions Ref.collab Ref.authority Ref.nonceKey
              Ref.world0 w1 Hrun)
    as (rent & o1 & bh & lv & o2 & tx & stx & raw & sig & o3 & st & o4
        & Hrent & _ & Hix & Hfee & _ & _ & _ & Hsign & _).
  exists w1, tx, stx. split; [reflexivity |].
  vm_compute in Hrent. injection Hrent as <- <-.
  split; [exact Hix |]. split; [exact Hfee | exact Hsign].
Defined.

Lemma signOffline_signs_and_requires_all_witness :
  (exists s w1,
      signOffline Ref.collab Ref.sender Ref.authority (Js.JInt false 0) false
        Ref.world_drafted = (inr s, w1)
      /\ fs w1 !! signed_path = Some s)
  /\ (exists e,
         fst (signOffline Ref.collab Ref.sender Ref.authority
                (Js.JInt false 0) false Ref.world_drafted_nonce) = inl e
         /\ fs (snd (signOffline Ref.collab Ref.sender Ref.authority
                       (Js.JInt false 0) false Ref.world_drafted_nonce))
            = fs Ref.world_drafted_nonce).
Proof.
  split.
  - destruct (reload Ref.collab unsigned_path
                (fs Ref.world_drafted !! unsigned_path))
      as [e | utx] eqn:Hre; [vm_compute in Hre; discriminate Hre |].
    destruct (tx_sign Ref.collab [Ref.sender] utx) as [e | stx] eqn:Hsg.
    { vm_compute in Hre. injection Hre as <-. vm_compute in Hsg.
      discriminate Hsg. }
    destruct (tx_serialize Ref.collab true stx) as [e | raw] eqn:Hraw.
    { vm_compute in Hre. injection Hre as <-. vm_compute in Hsg.
      injection Hsg as <-. vm_compute in Hraw. discriminate Hraw. }
    destruct (signOffline_signs_and_requires_all Ref.collab Ref.sender
                Ref.authority (Js.JInt false 0) false Ref.world_drafted
                utx stx Hre Hsg) as (_ & Hok & _).
    eexists. eexists. split; [apply Hok; exact Hraw |].
    simpl. apply lookup_insert_eq.
  - destruct (reload Ref.collab unsigned_path
                (fs Ref.world_drafted_nonce !! unsigned_path))
      as [e | utx] eqn:Hre; [vm_compute in Hre; discriminate Hre |].
    destruct (tx_sign Ref.collab [Ref.sender] utx) as [e | stx] eqn:Hsg.
    { vm_compute in Hre. injection Hre as <-. vm_compute in Hsg.
      discriminate Hsg. }
    destruct (signOffline_signs_and_requires_all Ref.collab Ref.sender
                Ref.authority (Js.JInt false 0) false Ref.world_drafted_nonce
                utx stx Hre Hsg) as (_ & _ & _ & Hclosed).
    vm_compute in Hre. injection Hre as <-.
    vm_compute in Hsg. injection Hsg as <-.
    apply Hclosed.
    + vm_compute. reflexivity.
    + eexists. vm_compute. reflexivity.
Defined.

Lemma signOffline_rerun_identical_witness :
  exists s w1 w2,
    signOffline Ref.collab Ref.sender Ref.authority (Js.JInt false 0) false
      Ref.world_drafted = (inr s, w1)
    /\ signOffline Ref.collab Ref.sender Ref.authority (Js.JInt false 120000)
         false w1 = (inr s, w2)
    /\ fs w2 = fs w1.
Proof.
  destruct (signOffline Ref.collab Ref.sender Ref.authority (Js.JInt false 0)
              false Ref.world_drafted) as [[e | s] w1] eqn:Hrun;
    [must_succeed Hrun |].
  destruct (signOffline_rerun_identical Ref.collab Ref.sender Ref.authority
              (Js.JInt false 0) (Js.JInt false 120000) false
              Ref.world_drafted w1 Ref.world_drafted s Hrun eq_refl)
    as (_ & _ & w2 & Hagain & Hfs).
  exists s, w1, w2. split; [reflexivity |]. split; assumption.
Defined.

Lemma executeTx_submits_and_logs_witness :
  exists sig o,
    executeTx Ref.collab Ref.world_signed
    = (inr undefined, broadcast Ref.world_signed o sig)
    /\ sig = "0-txid".
Proof.
  destruct (reload Ref.collab signed_path
              (fs Ref.world_signed !! signed_path))
    as [e | stx] eqn:Hre; [vm_compute in Hre; discriminate Hre |].
  destruct (tx_serialize Ref.collab true stx) as [e | raw] eqn:Hraw.
  { vm_compute in Hre. injection Hre as <-. vm_compute in Hraw.
    discriminate Hraw. }
  destruct (sendRawTransaction Ref.collab raw (outside Ref.world_signed))
    as [[e | sig] o] eqn:Hsend.
  { vm_compute in Hsend. discriminate Hsend. }
  exists sig, o. split.
  - exact (proj1 (executeTx_submits_and_logs Ref.collab Ref.world_signed)
             stx raw sig o Hre Hraw Hsend).
  - vm_compute in Hsend. injection Hsend as <- _. reflexivity.
Defined.

(** C8 as written fails: on the reference ledger the submission of the
    signed artifact is accepted and assigned an identifier, and [executeTx]
    hands [undefined] back to its caller, not that identifier. *)
Lemma executeTx_returns_no_identifier :
  exists signedTx raw sig o,
    reload Ref.collab signed_path (fs Ref.world_signed !! signed_path)
    = inr signedTx
    /\ tx_serialize Ref.collab true signedTx = inr raw
    /\ sendRawTransaction Ref.collab raw (outside Ref.world_signed)
       = (inr sig, o)
    /\ fst (executeTx Ref.collab Ref.world_signed) = inr undefined
    /\ fst (executeTx Ref.collab Ref.world_signed) <> inr (JString sig).
Proof.
  do 4 eexists. split; [vm_compute; reflexivity |].
  split; [vm_compute; reflexivity |].
  split; [vm_compute; reflexivity |].
  split; [vm_compute; reflexivity |].
  vm_compute. discriminate.
Qed.

Lemma main_reports_stage_error_witness :
  exists e w1,
    main Ref.collab Ref.sender Ref.authority Ref.nonceKey
      ["node"; "app.ts"; "-useNonce"] Ref.world_empty
    = (Completed, reported w1 e)
    /\ e = mkError "No account info found"
    /\ fs w1 = ∅.
Proof.
  pose proof (run_result
                (createNonce Ref.collab Ref.authority Ref.nonceKey
                   (announced Ref.world_empty
                      (mkArgs true (Js.JInt false 120000))))
                (inr tt) ltac:(vm_compute; reflexivity)) as H1.
  pose proof (run_result
                (createTx Ref.collab Ref.sender Ref.authority Ref.nonceKey true
                   (snd (createNonce Ref.collab Ref.authority Ref.nonceKey
                           (announced Ref.world_empty
                              (mkArgs true (Js.JInt false 120000))))))
                (inl (mkError "No account info found"))
                ltac:(vm_compute; reflexivity)) as H2.
  eexists. eexists. split.
  - exact (proj1 (proj2
      (main_reports_stage_error Ref.collab Ref.sender Ref.authority
         Ref.nonceKey ["node"; "app.ts"; "-useNonce"]
         (mkArgs true (Js.JInt false 120000)) [] Ref.world_empty
         eq_refl)) _ _ _ H1 H2).
  - split; [reflexivity |]. vm_compute. reflexivity.
Defined.

(** C5 as written fails: in nonce mode on a ledger without the nonce
    account the building stage throws, the signing and broadcasting stages
    do not run, the error is reported on standard error, and the process
    ends with exit status zero. *)
Lemma main_exit_status_zero_on_error :
  let argv := ["node"; "app.ts"; "-useNonce"] in
  let a := mkArgs true (Js.JInt false 120000) in
  exists w2 w1,
    createNonce Ref.collab Ref.authority Ref.nonceKey
      (announced Ref.world_empty a) = (inr tt, w2)
    /\ createTx Ref.collab Ref.sender Ref.authority Ref.nonceKey true w2
       = (inl (mkError "No account info found"), w1)
    /\ stderr (snd (main Ref.collab Ref.sender Ref.authority Ref.nonceKey
                      argv Ref.world_empty))
       = [[LErr (mkError "No account info found")]]
    /\ exit_status (fst (main Ref.collab Ref.sender Ref.authority
                           Ref.nonceKey argv Ref.world_empty)) = 0%Z.
Proof.
  intros argv a. eexists. eexists.
  split; [apply run_result; vm_compute; reflexivity |].
  split; [apply run_result; vm_compute; reflexivity |].
  split; vm_compute; reflexivity.
Qed.

(** ** The reference codec

    The reference parser reads back what the reference serialiser wrote, so
    [Transaction.from] after [serialize] gives the wire form of the
    transaction. *)

Module RefFacts.

Import Ref.

Local Open Scope list_scope.




















Lemma bs58_decode_encode (raw : bytes) :
  bs58_decode collab (bs58_encode collab raw) = inr raw.
Proof. simpl. rewrite list_byte_of_string_of_list_byte. reflexivity. Qed.

End RefFacts.




(** ** Further properties of the command line *)

Lemma parse_loop_parsed_silent_upto (n : nat) :
  forall rest u t a errs,
    length rest <= n ->
    parse_loop rest u t = (Parsed a, errs) -> errs = [].
Proof.
  induction n as [|n IH]; intros rest u t a errs Hlen H.
  - destruct rest; [injection H as _ <-; reflexivity | simpl in Hlen; lia].
  - destruct rest as [|x rest]; [injection H as _ <-; reflexivity |].
    simpl in H, Hlen. destruct (String.eqb x "-useNonce").
    + apply IH in H; [exact H | lia].
    + destruct (String.eqb x "-waitTime"); [| discriminate H].
      destruct rest as [|v rest]; [discriminate H |].
      apply IH in H; [exact H | simpl in Hlen; lia].
Qed.

Lemma parse_loop_parsed_silent rest u t a errs :
  parse_loop rest u t = (Parsed a, errs) -> errs = [].
Proof. apply (parse_loop_parsed_silent_upto (length rest)). lia. Qed.

(** The parser stops the process exactly on a refused command line, always
    with status 1 and exactly one line on standard error; every other
    command line is parsed and nothing is written. *)
Theorem parseCommandLineArgs_exits_iff_refused (argv : list string) :
  match parseCommandLineArgs argv with
  | (Exited code, errs) =>
      code = 1%Z /\ exists m, errs = [m] /\ refused (drop 2 argv) m
  | (Parsed a, errs) =>
      errs = [] /\ forall m, ~ refused (drop 2 argv) m
  end.
Proof.
  unfold parseCommandLineArgs.
  destruct (parse_loop (drop 2 argv) false (Js.JInt false 120000))
    as [[a | code] errs] eqn:H.
  - split; [exact (parse_loop_parsed_silent _ _ _ _ _ H) |].
    intros m Hm. rewrite (parse_loop_refused _ _ Hm) in H. discriminate H.
  - apply parse_loop_exits_refused in H. destruct H as (m & Hm & -> & ->).
    split; [reflexivity |]. exists m. split; [reflexivity | exact Hm].
Qed.

Lemma parse_loop_app_upto (n : nat) :
  forall l1 l2 u t a errs,
    length l1 <= n ->
    parse_loop l1 u t = (Parsed a, errs) ->
    parse_loop (l1 ++ l2) u t = parse_loop l2 (useNonce a) (waitTime a).
Proof.
  induction n as [|n IH]; intros l1 l2 u t a errs Hlen H.
  - destruct l1; [| simpl in Hlen; lia]. injection H as <- _. reflexivity.
  - destruct l1 as [|x l1]; [injection H as <- _; reflexivity |].
    simpl in H, Hlen. simpl.
    destruct (String.eqb x "-useNonce").
    + refine (IH _ _ _ _ _ _ _ H). lia.
    + destruct (String.eqb x "-waitTime"); [| discriminate H].
      destruct l1 as [|v l1]; [discriminate H |]. simpl.
      refine (IH _ _ _ _ _ _ _ H). simpl in Hlen. lia.
Qed.

(** Parsing is left to right and compositional: once a first group of
    arguments is accepted, what follows is parsed as if it stood alone,
    starting from the settings the first group produced. *)
Theorem parse_loop_app (l1 l2 : list string) (u : bool) (t : Js.number)
    (a : Args) (errs : list string)
    (Hfirst : parse_loop l1 u t = (Parsed a, errs)) :
  parse_loop (l1 ++ l2) u t = parse_loop l2 (useNonce a) (waitTime a).
Proof. apply (parse_loop_app_upto (length l1) _ _ _ _ _ errs); [lia | exact Hfirst]. Qed.



(** ** Further properties of [parseInt] as the parser uses it *)

Module JsExtra.

Import Js.

Lemma trim_start_ws (ws s : string) :
  all_ws ws = true -> trim_start (ws ++ s) = trim_start s.
Proof.
  induction ws as [|c ws IH]; simpl; [reflexivity |].
  intros H. apply andb_true_iff in H. destruct H as [Hc Hws].
  rewrite Hc. apply IH. exact Hws.
Qed.

(** White space before the delay value is ignored. *)
Theorem parseInt_skips_white_space (ws s : string)
    (Hws : all_ws ws = true) :
  parseInt (ws ++ s) = parseInt s.
Proof. unfold parseInt. rewrite (trim_start_ws _ _ Hws). reflexivity. Qed.

Lemma negate_to_number (neg : bool) (m : N) :
  negate (to_number neg m) = to_number (negb neg) m.
Proof. unfold to_number. destruct (round_mag m); reflexivity. Qed.

Lemma parseInt_plain (s : string) :
  plain_head s = true ->
  parseInt s
  = match digits_prefix (fst (strip_radix s)) (snd (strip_radix s)) with
    | [] => NaN
    | ds => to_number false (digits_value (fst (strip_radix s)) ds)
    end
  /\ parseInt (String "-" s)
     = match digits_prefix (fst (strip_radix s)) (snd (strip_radix s)) with
       | [] => NaN
       | ds => to_number true (digits_value (fst (strip_radix s)) ds)
       end
  /\ parseInt (String "+" s) = parseInt s.
Proof.
  intros H.
  assert (Hs : strip_sign (trim_start s) = (false, s)).
  { destruct s as [|c s]; [reflexivity |]. simpl in H.
    apply andb_true_iff in H. destruct H as [H Hp].
    apply andb_true_iff in H. destruct H as [Hw Hm].
    apply negb_true_iff in Hw, Hm, Hp. simpl. rewrite Hw. simpl.
    rewrite Hm, Hp. reflexivity. }
  unfold parseInt. rewrite Hs. simpl.
  destruct (strip_radix s) as [radix s2]. simpl. repeat split.
Qed.

(** A sign before the delay value is honoured, so a negative delay is
    accepted: a leading minus gives the opposite of the unsigned value (minus
    zero for zero), a leading plus changes nothing. *)
Theorem parseCommandLineArgs_signed_delay (node script s : string)
    (Hplain : plain_head s = true) :
  Js.parseInt (String "-" s) = negate (Js.parseInt s)
  /\ Js.parseInt (String "+" s) = Js.parseInt s
  /\ parseCommandLineArgs [node; script; "-waitTime"; String "-" s]
     = (Parsed (mkArgs false (negate (Js.parseInt s))), []).
Proof.
  destruct (parseInt_plain s Hplain) as (H0 & Hm & Hp).
  assert (Hneg : parseInt (String "-" s) = negate (parseInt s)).
  { rewrite Hm, H0.
    destruct (digits_prefix (strip_radix s).1 (strip_radix s).2);
      [reflexivity |].
    rewrite negate_to_number. reflexivity. }
  split; [exact Hneg |]. split; [exact Hp |].
  unfold parseCommandLineArgs. simpl. rewrite Hneg. reflexivity.
Qed.

Lemma uint_digits (d : Decimal.uint) :
  all_dec_digits (NilEmpty.string_of_uint d) = true.
Proof. induction d; simpl; try reflexivity; exact IHd. Qed.

Lemma dec_value_from_acc (d : Decimal.uint) :
  forall acc : positive,
    dec_value_from (Npos acc) (NilEmpty.string_of_uint d)
    = Npos (Pos.of_uint_acc d acc).
Proof.
  induction d; intros acc; simpl; try reflexivity;
    match goal with
    | |- dec_value_from ?x _ = _ =>
        match goal with
        | |- _ = Npos (Pos.of_uint_acc _ ?p) =>
            replace x with (Npos p) by (simpl; lia); apply IHd
        end
    end.
Qed.

Lemma dec_value_of_uint (d : Decimal.uint) :
  dec_value (NilEmpty.string_of_uint d) = N.of_uint d.
Proof.
  unfold dec_value, N.of_uint.
  induction d; simpl; try reflexivity; try exact IHd;
    apply (dec_value_from_acc d).
Qed.

Lemma decimal_of_N_nonempty (n : N) : decimal_of_N n <> "".
Proof.
  unfold decimal_of_N. destruct n as [|p]; [discriminate |]. simpl.
  pose proof (DecimalPos.Unsigned.to_uint_nonnil p) as H.
  destruct (Pos.to_uint p); [congruence | discriminate ..].
Qed.

Lemma dec_value_decimal_of_N (n : N) : dec_value (decimal_of_N n) = n.
Proof.
  unfold decimal_of_N. rewrite dec_value_of_uint.
  apply DecimalN.Unsigned.of_to.
Qed.

Lemma append_empty_r (s : string) : s ++ "" = s.
Proof.
  induction s as [|c s IH]; [reflexivity |].
  change (String c (s ++ "") = String c s). f_equal. exact IH.
Qed.

(** The delay written as an ordinary decimal numeral is read back as that
    number: exactly below 2^53, and rounded to a double above. *)
Theorem parseInt_decimal_round_trip (node script : string) (n : N) :
  parseInt (decimal_of_N n) = to_number false n
  /\ ((n < 2 ^ 53)%N ->
      parseInt (decimal_of_N n) = JInt false n
      /\ parseCommandLineArgs [node; script; "-waitTime"; decimal_of_N n]
         = (Parsed (mkArgs false (JInt false n)), [])).
Proof.
  assert (Hp : parseInt (decimal_of_N n) = to_number false n).
  { pose proof (JsFacts.parseInt_dec_prefix (decimal_of_N n) ""
                  (uint_digits _) (decimal_of_N_nonempty n) eq_refl
                  (andb_false_r _)) as H.
    rewrite append_empty_r, dec_value_decimal_of_N in H. exact H. }
  split; [exact Hp |]. intros Hsmall.
  assert (Hi : parseInt (decimal_of_N n) = JInt false n).
  { rewrite Hp. unfold to_number.
    rewrite (JsFacts.round_mag_small _ Hsmall). reflexivity. }
  split; [exact Hi |].
  unfold parseCommandLineArgs. simpl. rewrite Hi. reflexivity.
Qed.

Lemma parseInt_decimal_round_trip_witness :
  parseInt (decimal_of_N 120000) = JInt false 120000
  /\ parseCommandLineArgs ["node"; "app.ts"; "-waitTime"; "120000"]
     = (Parsed (mkArgs false (JInt false 120000)), []).
Proof.
  apply (proj2 (parseInt_decimal_round_trip "node" "app.ts" 120000)).
  vm_compute. reflexivity.
Defined.

End JsExtra.

(** ** Relations every stage keeps *)

Section Keeps.

Context (C : Collab) (R : World C -> World C -> Prop).
Variables senderKeypair nonceAuthKeypair nonceKeypair : Keypair.

Hypothesis R_refl : forall w, R w w.
Hypothesis R_trans : forall w1 w2 w3, R w1 w2 -> R w2 w3 -> R w1 w3.
Hypothesis R_log : forall l w,
  R w (mkWorld (fs w) (outside w) (stdout w ++ [l]) (stderr w)).
Hypothesis R_error : forall l w,
  R w (mkWorld (fs w) (outside w) (stdout w) (stderr w ++ [l])).
Hypothesis R_outside : forall o w,
  R w (mkWorld (fs w) o (stdout w) (stderr w)).
Hypothesis R_unsigned : forall data w,
  R w (mkWorld (<[unsigned_path := data]> (fs w)) (outside w) (stdout w)
         (stderr w)).
Hypothesis R_signed : forall data w,
  R w (mkWorld (<[signed_path := data]> (fs w)) (outside w) (stdout w)
         (stderr w)).

Lemma keeps_ret {A} (a : A) : keeps R (@ret C A a).
Proof. intros w. apply R_refl. Qed.

Lemma keeps_throw {A} (e : JsError) : keeps R (@throw C A e).
Proof. intros w. apply R_refl. Qed.

Lemma keeps_lift_result {A} (r : result A) : keeps R (@lift_result C A r).
Proof. intros w. apply R_refl. Qed.

Lemma keeps_bind {A B} (m : M C A) (k : A -> M C B) :
  keeps R m -> (forall a, keeps R (k a)) -> keeps R (bind m k).
Proof.
  intros Hm Hk w. unfold bind. specialize (Hm w).
  destruct (m w) as [[e | a] w1]; simpl in *; [exact Hm |].
  apply (R_trans _ _ _ Hm). apply Hk.
Qed.

Lemma keeps_try_catch {A} (m : M C A) (h : JsError -> M C A) :
  keeps R m -> (forall e, keeps R (h e)) -> keeps R (try_catch m h).
Proof.
  intros Hm Hh w. unfold try_catch. specialize (Hm w).
  destruct (m w) as [[e | a] w1]; simpl in *; [| exact Hm].
  apply (R_trans _ _ _ Hm). apply Hh.
Qed.

Lemma keeps_console_log (l : LogLine) : keeps R (@console_log C l).
Proof. intros w. apply R_log. Qed.

Lemma keeps_console_error (l : LogLine) : keeps R (@console_error C l).
Proof. intros w. apply R_error. Qed.

Lemma keeps_lift_outside {A} (f : Outside C -> A * Outside C) :
  keeps R (lift_outside f).
Proof.
  intros w. unfold lift_outside. destruct (f (outside w)). apply R_outside.
Qed.

Lemma keeps_call_outside {A} (f : Outside C -> result A * Outside C) :
  keeps R (call_outside f).
Proof.
  intros w. unfold call_outside. destruct (f (outside w)). apply R_outside.
Qed.

Lemma keeps_readFileSync (filename : string) :
  keeps R (@readFileSync C filename).
Proof.
  intros w. unfold readFileSync. destruct (fs w !! filename); apply R_refl.
Qed.

Lemma keeps_readAndDecode (filename : string) :
  keeps R (readAndDecodeTransaction C filename).
Proof.
  unfold readAndDecodeTransaction.
  apply keeps_bind; [apply keeps_readFileSync | intros data].
  apply keeps_bind; [apply keeps_lift_result | intros dec].
  apply keeps_bind; [apply keeps_lift_result | intros tx]. apply keeps_ret.
Qed.

Lemma keeps_fetchNonceInfo : keeps R (fetchNonceInfo C nonceKeypair).
Proof.
  unfold fetchNonceInfo.
  apply keeps_bind; [apply keeps_call_outside | intros [data |]];
    [| apply keeps_throw].
  apply keeps_bind; [apply keeps_lift_result | intros na].
  apply keeps_bind; [apply keeps_console_log | intros _].
  apply keeps_bind; [apply keeps_console_log | intros _]. apply keeps_ret.
Qed.

Lemma keeps_write_unsigned tx r :
  keeps R (encodeAndWriteTransaction C tx unsigned_path r).
Proof.
  unfold encodeAndWriteTransaction.
  apply keeps_bind; [apply keeps_lift_result | intros raw].
  apply keeps_bind; [intros w; apply R_unsigned | intros _].
  apply keeps_bind; [apply keeps_console_log | intros _]. apply keeps_ret.
Qed.

Lemma keeps_write_signed tx r :
  keeps R (encodeAndWriteTransaction C tx signed_path r).
Proof.
  unfold encodeAndWriteTransaction.
  apply keeps_bind; [apply keeps_lift_result | intros raw].
  apply keeps_bind; [intros w; apply R_signed | intros _].
  apply keeps_bind; [apply keeps_console_log | intros _]. apply keeps_ret.
Qed.

Lemma keeps_createNonce :
  keeps R (createNonce C nonceAuthKeypair nonceKeypair).
Proof.
  unfold createNonce.
  apply keeps_bind; [apply keeps_console_log | intros _].
  apply keeps_bind; [apply keeps_call_outside | intros rent].
  apply keeps_bind; [apply keeps_call_outside | intros [bh lv]].
  apply keeps_bind; [apply keeps_lift_result | intros stx].
  apply keeps_try_catch.
  - apply keeps_bind; [apply keeps_lift_result | intros raw].
    apply keeps_bind; [apply keeps_call_outside | intros sig].
    apply keeps_bind; [apply keeps_call_outside | intros _].
    apply keeps_console_log.
  - intros e. apply keeps_bind; [apply keeps_console_error | intros _].
    apply keeps_throw.
Qed.

Lemma keeps_createTx (u : bool) :
  keeps R (createTx C senderKeypair nonceAuthKeypair nonceKeypair u).
Proof.
  unfold createTx.
  apply keeps_bind; [apply keeps_console_log | intros _].
  apply keeps_bind; [apply keeps_lift_outside | intros dest].
  apply keeps_bind; [| intros tx; apply keeps_write_unsigned].
  destruct u.
  - apply keeps_bind; [apply keeps_fetchNonceInfo | intros na]. apply keeps_ret.
  - apply keeps_bind; [apply keeps_call_outside | intros bh]. apply keeps_ret.
Qed.

Lemma keeps_sleep (waitTime : Js.number) : keeps R (sleep C waitTime).
Proof.
  unfold sleep. apply keeps_bind; [| intros _; apply keeps_lift_outside].
  destruct (setTimeout_overflows waitTime);
    [apply keeps_console_error | apply keeps_ret].
Qed.

Lemma keeps_signOffline (waitTime : Js.number) (u : bool) :
  keeps R (signOffline C senderKeypair nonceAuthKeypair waitTime u).
Proof.
  unfold signOffline.
  apply keeps_bind; [apply keeps_console_log | intros _].
  apply keeps_bind; [apply keeps_sleep | intros _].
  apply keeps_bind; [apply keeps_readAndDecode | intros utx].
  apply keeps_bind; [apply keeps_lift_result | intros stx].
  apply keeps_write_signed.
Qed.

Lemma keeps_executeTx : keeps R (executeTx C).
Proof.
  unfold executeTx.
  apply keeps_bind; [apply keeps_console_log | intros _].
  apply keeps_bind; [apply keeps_readAndDecode | intros stx].
  apply keeps_bind; [apply keeps_lift_result | intros raw].
  apply keeps_bind; [apply keeps_call_outside | intros sig].
  apply keeps_bind; [apply keeps_console_log | intros _]. apply keeps_ret.
Qed.

Lemma keeps_pipeline (a : Args) :
  keeps R (pipeline C senderKeypair nonceAuthKeypair nonceKeypair a).
Proof.
  unfold pipeline.
  apply keeps_bind; [apply keeps_createNonce | intros _].
  apply keeps_bind; [apply keeps_createTx | intros _].
  apply keeps_bind; [apply keeps_signOffline | intros _].
  apply keeps_bind; [apply keeps_executeTx | intros _]. apply keeps_ret.
Qed.

Lemma keeps_main (argv : list string) (w : World C) :
  R w (snd (main C senderKeypair nonceAuthKeypair nonceKeypair argv w)).
Proof.
  unfold main. destruct (parseCommandLineArgs argv) as [[a | code] errs].
  - simpl.
    apply (keeps_bind (console_log (announce a))
             (fun _ => try_catch _ _)); [apply keeps_console_log | intros _].
    apply keeps_try_catch; [apply keeps_pipeline | intros e].
    apply keeps_console_error.
  - simpl. induction errs as [|m errs IH] using rev_ind.
    + simpl. rewrite app_nil_r. destruct w; apply R_refl.
    + rewrite map_app, app_assoc. simpl.
      apply (R_trans _ _ _ IH). apply (R_error [LStr m]
        (mkWorld (fs w) (outside w) (stdout w)
           (stderr w ++ map (fun s => [LStr s]) errs))).
Qed.

End Keeps.


(** ** What the stages leave alone *)

Section Frames.

Context (C : Collab).
Variables senderKeypair nonceAuthKeypair nonceKeypair : Keypair.

Local Abbreviation createTx'' :=
  (createTx C senderKeypair nonceAuthKeypair nonceKeypair).
Local Abbreviation createNonce'' := (createNonce C nonceAuthKeypair nonceKeypair).
Local Abbreviation signOffline'' := (signOffline C senderKeypair nonceAuthKeypair).
Local Abbreviation main'' := (main C senderKeypair nonceAuthKeypair nonceKeypair).
Local Abbreviation pipeline'' :=
  (pipeline C senderKeypair nonceAuthKeypair nonceKeypair).

Lemma files_outside_trans (ps : list string) (w1 w2 w3 : World C) :
  files_outside ps w1 w2 -> files_outside ps w2 w3 -> files_outside ps w1 w3.
Proof. intros H12 H23 p Hp. rewrite (H23 p Hp). apply H12. exact Hp. Qed.

Lemma files_outside_insert (ps : list string) (p data : string) (w : World C) :
  p ∈ ps ->
  files_outside ps w
    (mkWorld (<[p := data]> (fs w)) (outside w) (stdout w) (stderr w)).
Proof.
  intros Hin q Hq. simpl. apply lookup_insert_ne. intros ->. exact (Hq Hin).
Qed.

(** The provisioner and the broadcaster never write a file; the builder
    writes at most the unsigned artifact, the signer at most the signed
    artifact, and a whole run of [main], whatever its command line and
    however it ends, at most those two. *)
Theorem stages_touch_only_their_artifact
    (u : bool) (waitTime : Js.number) (argv : list string) (w : World C) :
  fs (snd (createNonce'' w)) = fs w
  /\ files_outside [unsigned_path] w (snd (createTx'' u w))
  /\ files_outside [signed_path] w (snd (signOffline'' waitTime u w))
  /\ fs (snd (executeTx C w)) = fs w
  /\ files_outside [unsigned_path; signed_path] w (snd (main'' argv w)).
Proof.
  split; [| split; [| split; [| split]]].
  - apply (keeps_createNonce C (fun w w' => fs w' = fs w)); try reflexivity.
    intros w1 w2 w3 H1 H2. congruence.
  - apply (keeps_createTx C (files_outside [unsigned_path]));
      try (intros; intros p Hp; reflexivity).
    + apply files_outside_trans.
    + intros data w0. apply files_outside_insert. set_solver.
  - apply (keeps_signOffline C (files_outside [signed_path]));
      try (intros; intros p Hp; reflexivity).
    + apply files_outside_trans.
    + intros data w0. apply files_outside_insert. set_solver.
  - apply (keeps_executeTx C (fun w w' => fs w' = fs w)); try reflexivity.
    intros w1 w2 w3 H1 H2. congruence.
  - apply (keeps_main C (files_outside [unsigned_path; signed_path]));
      try (intros; intros p Hp; reflexivity).
    + apply files_outside_trans.
    + intros data w0. apply files_outside_insert. set_solver.
    + intros data w0. apply files_outside_insert. set_solver.
Qed.

End Frames.

(** ** Failures of the stages, and how the stages compose *)

Section Failures.

Context (C : Collab).
Variables senderKeypair nonceAuthKeypair nonceKeypair : Keypair.

Local Abbreviation createTx'' :=
  (createTx C senderKeypair nonceAuthKeypair nonceKeypair).
Local Abbreviation createNonce'' := (createNonce C nonceAuthKeypair nonceKeypair).
Local Abbreviation signOffline'' := (signOffline C senderKeypair nonceAuthKeypair).
Local Abbreviation main'' := (main C senderKeypair nonceAuthKeypair nonceKeypair).
Local Abbreviation pipeline'' :=
  (pipeline C senderKeypair nonceAuthKeypair nonceKeypair).
Local Abbreviation newNonceTx'' := (newNonceTx C nonceAuthKeypair nonceKeypair).

(** The provisioner's own report: when [createNonce] succeeds standard error
    is as before; when it throws [e], standard error is as before or has
    gained exactly the line naming [e]. *)
Theorem createNonce_failure_modes (w : World C) :
  match createNonce'' w with
  | (inr _, w1) => stderr w1 = stderr w
  | (inl e, w1) =>
      stderr w1 = stderr w \/ stderr w1 = (stderr w ++ [nonce_failure_line e])%list
  end.
Proof.
  unfold createNonce, bind at 1 2 3 4, console_log, call_outside, lift_result.
  simpl.
  destruct (getMinimumBalanceForRentExemption C _ (outside w))
    as [[e | rent] o1]; simpl; [left; reflexivity |].
  destruct (getLatestBlockhash C o1) as [[e | [bh lv]] o2]; simpl;
    [left; reflexivity |].
  destruct (tx_sign C _ _) as [e | stx]; simpl; [left; reflexivity |].
  unfold try_catch, bind, lift_result, call_outside, console_log,
    console_error, throw. simpl.
  destruct (tx_serialize C true stx) as [e | raw]; simpl;
    [right; reflexivity |].
  destruct (sendRawTransaction C raw o2) as [[e | sig] o3]; simpl;
    [right; reflexivity |].
  destruct (confirmTransaction C sig bh lv o3) as [[e | st] o4]; simpl;
    [right; reflexivity | reflexivity].
Qed.

Lemma createNonce_until_sign (w : World C) rent o1 bh lv o2 :
  getMinimumBalanceForRentExemption C (NONCE_ACCOUNT_LENGTH C) (outside w)
  = (inr rent, o1) ->
  getLatestBlockhash C o1 = (inr (bh, lv), o2) ->
  createNonce'' w
  = (let! signedTx :=
       lift_result
         (tx_sign C [nonceKeypair; nonceAuthKeypair] (newNonceTx'' rent bh lv)) in
     try_catch
       (let! raw := lift_result (tx_serialize C true signedTx) in
        let! signature := call_outside (sendRawTransaction C raw) in
        run! call_outside (confirmTransaction C signature bh lv) in
        console_log [LStr "      Nonce Acct Created: "; LStr signature])
       (fun error =>
          run! console_error (nonce_failure_line error) in throw error))
      (mkWorld (fs w) o2
         (stdout w ++ [[LStr "---Step 2---Creating nonce account"]])
         (stderr w)).
Proof.
  intros Hrent Hbh.
  unfold createNonce, bind at 1 2 3, console_log at 1, call_outside at 1 2.
  simpl. rewrite Hrent. simpl. rewrite Hbh. reflexivity.
Qed.

(** A signing failure in the provisioner is thrown as it is: nothing has
    been submitted and the provisioner adds no line to standard error. *)
Theorem createNonce_sign_failure_unlogged
    (w : World C) (rent : N) (o1 : Outside C) (bh : Blockhash) (lv : N)
    (o2 : Outside C) (e : JsError)
    (Hrent : getMinimumBalanceForRentExemption C (NONCE_ACCOUNT_LENGTH C)
               (outside w) = (inr rent, o1))
    (Hblockhash : getLatestBlockhash C o1 = (inr (bh, lv), o2))
    (Hsign : tx_sign C [nonceKeypair; nonceAuthKeypair]
               (newNonceTx'' rent bh lv) = inl e) :
  createNonce'' w
  = (inl e,
     mkWorld (fs w) o2
       (stdout w ++ [[LStr "---Step 2---Creating nonce account"]])
       (stderr w)).
Proof.
  rewrite (createNonce_until_sign w _ _ _ _ _ Hrent Hblockhash).
  unfold bind, lift_result. rewrite Hsign. reflexivity.
Qed.

(** A refused submission in the provisioner is reported twice: the
    provisioner writes its own line naming the error and rethrows the same
    error, and [main] then writes the error again; no later stage runs. *)
Theorem createNonce_submit_failure_reported_twice
    (w : World C) (rent : N) (o1 : Outside C) (bh : Blockhash) (lv : N)
    (o2 : Outside C) (signedTx : Transaction) (raw : bytes) (e : JsError)
    (o3 : Outside C) (argv : list string) (a : Args) (errs : list string)
    (Hrent : getMinimumBalanceForRentExemption C (NONCE_ACCOUNT_LENGTH C)
               (outside w) = (inr rent, o1))
    (Hblockhash : getLatestBlockhash C o1 = (inr (bh, lv), o2))
    (Hsign : tx_sign C [nonceKeypair; nonceAuthKeypair]
               (newNonceTx'' rent bh lv) = inr signedTx)
    (Hraw : tx_serialize C true signedTx = inr raw)
    (Hsend : sendRawTransaction C raw o2 = (inl e, o3))
    (Hparse : parseCommandLineArgs argv = (Parsed a, errs)) :
  createNonce'' w
  = (inl e,
     mkWorld (fs w) o3
       (stdout w ++ [[LStr "---Step 2---Creating nonce account"]])
       (stderr w ++ [nonce_failure_line e]))
  /\ main'' argv w
     = (Completed,
        mkWorld (fs w) o3
          ((stdout w ++ [announce a])
           ++ [[LStr "---Step 2---Creating nonce account"]])
          ((stderr w ++ [nonce_failure_line e]) ++ [[LErr e]])).
Proof.
  assert (Hgen : forall w0 : World C,
             outside w0 = outside w ->
             createNonce'' w0
             = (inl e,
                mkWorld (fs w0) o3
                  (stdout w0 ++ [[LStr "---Step 2---Creating nonce account"]])
                  (stderr w0 ++ [nonce_failure_line e]))).
  { intros w0 Hw0. rewrite <- Hw0 in Hrent.
    rewrite (createNonce_until_sign w0 _ _ _ _ _ Hrent Hblockhash).
    unfold bind at 1, lift_result at 1. rewrite Hsign.
    unfold try_catch, bind at 1 2, lift_result, call_outside at 1. simpl.
    rewrite Hraw. simpl. rewrite Hsend. reflexivity. }
  split; [apply Hgen; reflexivity |].
  rewrite (main_parsed C _ _ _ _ _ _ w Hparse). unfold pipeline.
  rewrite (bind_inl C _ _ _ _ _ (Hgen (announced w a) eq_refl)).
  reflexivity.
Qed.

(** In nonce mode, when the ledger has no account at the nonce address the
    builder throws the script's own error after generating the recipient:
    no file is written and standard error is untouched. *)
Theorem createTx_nonce_account_missing
    (w : World C) (destination : Keypair) (o1 o2 : Outside C)
    (Hgenerate : Keypair_generate C (outside w) = (destination, o1))
    (Habsent : getAccountInfo C (publicKey nonceKeypair) o1 = (inr None, o2)) :
  createTx'' true w
  = (inl (mkError "No account info found"),
     mkWorld (fs w) o2
       (stdout w ++ [[LStr "---Step 3---Creating transaction"]]) (stderr w)).
Proof.
  unfold createTx, bind at 1 2 3, console_log at 1, lift_outside. simpl.
  rewrite Hgenerate. simpl.
  unfold bind at 1, fetchNonceInfo, bind at 1, call_outside. simpl.
  rewrite Habsent. reflexivity.
Qed.

(** The builder writes the unsigned artifact exactly when it succeeds: a
    build that throws leaves every file, a stale unsigned artifact included,
    as it was. *)
Theorem createTx_writes_on_success_only (u : bool) (w : World C) :
  match createTx'' u w with
  | (inl _, w1) => fs w1 = fs w
  | (inr s, w1) => fs w1 = <[unsigned_path := s]> (fs w)
  end.
Proof.
  unfold createTx, bind at 1 2, console_log at 1, lift_outside. simpl.
  destruct (Keypair_generate C (outside w)) as [dest o1]. simpl.
  match goal with
  | |- context [bind ?m _ ?w0] =>
      assert (Hk : keeps (fun w w' : World C => fs w' = fs w) m);
      [| unfold bind at 1; specialize (Hk w0);
         destruct (m w0) as [[e | tx] w2]; simpl in Hk]
  end.
  - assert (Htrans : forall w1 w2 w3 : World C,
               fs w2 = fs w1 -> fs w3 = fs w2 -> fs w3 = fs w1)
      by (intros; congruence).
    destruct u.
    + apply keeps_bind; auto. apply keeps_fetchNonceInfo; auto.
      intros na. apply keeps_ret; auto.
    + apply keeps_bind; auto. apply keeps_call_outside; auto.
      intros bh. apply keeps_ret; auto.
  - exact Hk.
  - destruct (tx_serialize C false (set_feePayer (publicKey senderKeypair) tx))
      as [e | raw] eqn:Hs.
    + rewrite (encodeAndWrite_throws C _ _ _ _ _ Hs). exact Hk.
    + rewrite (encodeAndWrite_writes C _ _ _ _ _ Hs). simpl. rewrite Hk.
      reflexivity.
Qed.

End Failures.

Section Composition.

Context (C : Collab).
Variables senderKeypair nonceAuthKeypair nonceKeypair : Keypair.

Local Abbreviation createTx'' :=
  (createTx C senderKeypair nonceAuthKeypair nonceKeypair).
Local Abbreviation createNonce'' := (createNonce C nonceAuthKeypair nonceKeypair).
Local Abbreviation signOffline'' := (signOffline C senderKeypair nonceAuthKeypair).
Local Abbreviation main'' := (main C senderKeypair nonceAuthKeypair nonceKeypair).
Local Abbreviation pipeline'' :=
  (pipeline C senderKeypair nonceAuthKeypair nonceKeypair).

(** The signer always waits out the delay first; it writes the signed
    artifact exactly when it succeeds; and with no unsigned artifact on disk
    it throws the file error after the wait, leaving every file as it was. *)
Theorem signOffline_effects (waitTime : Js.number) (u : bool) (w : World C) :
  outside (snd (signOffline'' waitTime u w))
  = setTimeout_wait C waitTime (outside w)
  /\ match signOffline'' waitTime u w with
     | (inl _, w1) => fs w1 = fs w
     | (inr s, w1) => fs w1 = <[signed_path := s]> (fs w)
     end
  /\ (fs w !! unsigned_path = None ->
      signOffline'' waitTime u w
      = (inl (mkError ("ENOENT: no such file or directory, open '"
                       ++ unsigned_path ++ "'")),
         waited w waitTime)).
Proof.
  rewrite signOffline_unfold.
  destruct (reload C unsigned_path (fs w !! unsigned_path)) as [e | utx] eqn:Hre.
  - split; [reflexivity |]. split; [reflexivity |].
    intros Hnone. rewrite Hnone in Hre. simpl in Hre. injection Hre as <-.
    reflexivity.
  - destruct (tx_sign C _ utx) as [e | stx].
    + split; [reflexivity |]. split; [reflexivity |].
      intros Hnone. rewrite Hnone in Hre. discriminate Hre.
    + destruct (tx_serialize C true stx) as [e | raw] eqn:Hs.
      * rewrite (encodeAndWrite_throws C _ _ _ _ _ Hs).
        split; [reflexivity |]. split; [reflexivity |].
        intros Hnone. rewrite Hnone in Hre. discriminate Hre.
      * rewrite (encodeAndWrite_writes C _ _ _ _ _ Hs).
        split; [reflexivity |]. split; [reflexivity |].
        intros Hnone. rewrite Hnone in Hre. discriminate Hre.
Qed.

(** The broadcaster touches the ledger at most once, by submitting the
    serialisation of the reloaded signed artifact.  When the artifact is
    missing, or the serialiser refuses it (as it does when a required
    signature is missing), the broadcaster throws that error and nothing is
    submitted. *)
Theorem executeTx_submits_at_most_once (w : World C) :
  (outside (snd (executeTx C w)) = outside w
   \/ exists signedTx raw,
        reload C signed_path (fs w !! signed_path) = inr signedTx
        /\ tx_serialize C true signedTx = inr raw
        /\ outside (snd (executeTx C w))
           = snd (sendRawTransaction C raw (outside w)))
  /\ (forall e,
         reload C signed_path (fs w !! signed_path) = inl e ->
         fst (executeTx C w) = inl e
         /\ outside (snd (executeTx C w)) = outside w)
  /\ (forall signedTx e,
         reload C signed_path (fs w !! signed_path) = inr signedTx ->
         tx_serialize C true signedTx = inl e ->
         fst (executeTx C w) = inl e
         /\ outside (snd (executeTx C w)) = outside w).
Proof.
  rewrite executeTx_unfold. simpl.
  destruct (reload C signed_path (fs w !! signed_path)) as [e | stx] eqn:Hre.
  - split; [left; reflexivity |]. split.
    + intros e' He. injection He as <-. split; reflexivity.
    + intros stx e' He. discriminate He.
  - destruct (tx_serialize C true stx) as [e | raw] eqn:Hs.
    + split; [left; reflexivity |]. split.
      * intros e' He. discriminate He.
      * intros stx' e' He Hs'. injection He as <-. rewrite Hs in Hs'.
        injection Hs' as <-. split; reflexivity.
    + split.
      * right. exists stx, raw. split; [reflexivity |]. split; [exact Hs |].
        destruct (sendRawTransaction C raw (outside w)) as [[e | sig] o];
          reflexivity.
      * split.
        -- intros e' He. discriminate He.
        -- intros stx' e' He Hs'. injection He as <-. rewrite Hs in Hs'.
           discriminate Hs'.
Qed.

Lemma createTx_writes_what_it_returns (u : bool) (w w1 : World C) (s : string) :
  createTx'' u w = (inr s, w1) -> fs w1 !! unsigned_path = Some s.
Proof.
  intros Hrun. unfold createTx in Hrun.
  apply bind_inr_inv in Hrun. destruct Hrun as (? & w0 & _ & H).
  apply bind_inr_inv in H. destruct H as (dest & wg & _ & H).
  apply bind_inr_inv in H. destruct H as (tx & wt & _ & H).
  apply encodeAndWrite_inr_inv in H. destruct H as (raw & _ & _ & ->).
  simpl. apply lookup_insert_eq.
Qed.

(** The builder hands its draft to the signer through the unsigned
    artifact: after a successful build the file holds the text the builder
    returned, and the signer reloads that text (it decodes it and takes what
    [Transaction.from] makes of the bytes) and goes on to sign and write that
    transaction. *)
Theorem signOffline_reloads_the_draft
    (u : bool) (w w1 : World C) (s : string) (raw : bytes)
    (draft : Transaction)
    (Hbuilt : createTx'' u w = (inr s, w1))
    (Hdecode : bs58_decode C s = inr raw)
    (Hfrom : tx_from C raw = inr draft) :
  fs w1 !! unsigned_path = Some s
  /\ reload C unsigned_path (fs w1 !! unsigned_path) = inr draft
  /\ forall waitTime,
       signOffline'' waitTime u w1
       = match tx_sign C (offline_signers senderKeypair nonceAuthKeypair u)
                 draft with
         | inl e => (inl e, waited w1 waitTime)
         | inr signedTx =>
             encodeAndWriteTransaction C signedTx signed_path true
               (waited w1 waitTime)
         end.
Proof.
  pose proof (createTx_writes_what_it_returns _ _ _ _ Hbuilt) as Hfile.
  assert (Hre : reload C unsigned_path (fs w1 !! unsigned_path) = inr draft).
  { rewrite Hfile. simpl. rewrite Hdecode. exact Hfrom. }
  split; [exact Hfile |]. split; [exact Hre |].
  intros waitTime. rewrite signOffline_unfold, Hre. reflexivity.
Qed.

(** The signer hands the signed transaction to the broadcaster through the
    signed artifact: after a successful signing the file holds the text the
    signer returned, and the broadcaster submits the serialisation of what
    [Transaction.from] makes of that text's bytes; the outcome of the stage
    is the outcome of that one submission. *)
Theorem executeTx_submits_what_was_signed
    (waitTime : Js.number) (u : bool) (w w1 : World C) (s : string)
    (raw : bytes) (signedTx : Transaction) (wire : bytes)
    (Hsigned : signOffline'' waitTime u w = (inr s, w1))
    (Hdecode : bs58_decode C s = inr raw)
    (Hfrom : tx_from C raw = inr signedTx)
    (Hwire : tx_serialize C true signedTx = inr wire) :
  fs w1 !! signed_path = Some s
  /\ executeTx C w1
     = match sendRawTransaction C wire (outside w1) with
       | (inl e, o) =>
           (inl e,
            mkWorld (fs w1) o
              (stdout w1 ++ [[LStr "---Step 5---Executing transaction"]])
              (stderr w1))
       | (inr sig, o) => (inr undefined, broadcast w1 o sig)
       end.
Proof.
  assert (Hfile : fs w1 !! signed_path = Some s).
  { rewrite signOffline_unfold in Hsigned.
    destruct (reload C unsigned_path (fs w !! unsigned_path)) as [e | utx];
      [discriminate Hsigned |].
    destruct (tx_sign C _ utx) as [e | stx]; [discriminate Hsigned |].
    apply encodeAndWrite_inr_inv in Hsigned.
    destruct Hsigned as (raw0 & _ & _ & ->). simpl. apply lookup_insert_eq. }
  split; [exact Hfile |].
  rewrite executeTx_unfold, Hfile. simpl. rewrite Hdecode, Hfrom, Hwire.
  reflexivity.
Qed.

End Composition.

Section WholeRun.

Context (C : Collab).
Variables senderKeypair nonceAuthKeypair nonceKeypair : Keypair.

Local Abbreviation createTx'' :=
  (createTx C senderKeypair nonceAuthKeypair nonceKeypair).
Local Abbreviation createNonce'' := (createNonce C nonceAuthKeypair nonceKeypair).
Local Abbreviation signOffline'' := (signOffline C senderKeypair nonceAuthKeypair).
Local Abbreviation main'' := (main C senderKeypair nonceAuthKeypair nonceKeypair).
Local Abbreviation pipeline'' :=
  (pipeline C senderKeypair nonceAuthKeypair nonceKeypair).

Lemma quiet_trans (w1 w2 w3 : World C) :
  fs w2 = fs w1 /\ stderr w2 = stderr w1 ->
  fs w3 = fs w2 /\ stderr w3 = stderr w2 ->
  fs w3 = fs w1 /\ stderr w3 = stderr w1.
Proof. intros [-> ->] [-> ->]. split; reflexivity. Qed.

Lemma createNonce_inr_quiet (w w1 : World C) x :
  createNonce'' w = (inr x, w1) -> fs w1 = fs w /\ stderr w1 = stderr w.
Proof.
  intros Hrun. unfold createNonce in Hrun.
  apply bind_inr_inv in Hrun. destruct Hrun as (? & w0 & Hlog & H).
  apply console_log_inv in Hlog. subst w0.
  apply bind_inr_inv in H. destruct H as (rent & wr & Hrent & H).
  apply call_outside_inv in Hrent. destruct Hrent as (o1 & _ & ->).
  apply bind_inr_inv in H. destruct H as ([bh lv] & wb & Hbh & H).
  apply call_outside_inv in Hbh. destruct Hbh as (o2 & _ & ->).
  apply bind_inr_inv in H. destruct H as (stx & ws & Hsign & H).
  apply lift_result_inv in Hsign. destruct Hsign as [_ ->].
  apply try_catch_inr_inv in H. destruct H as [H | (e & wc & _ & H)].
  2:{ apply bind_inr_inv in H. destruct H as (? & ? & _ & H). discriminate H. }
  apply bind_inr_inv in H. destruct H as (raw & wx & Hraw & H).
  apply lift_result_inv in Hraw. destruct Hraw as [_ ->].
  apply bind_inr_inv in H. destruct H as (sig & wy & Hsend & H).
  apply call_outside_inv in Hsend. destruct Hsend as (o3 & _ & ->).
  apply bind_inr_inv in H. destruct H as (status & wz & Hconf & H).
  apply call_outside_inv in Hconf. destruct Hconf as (o4 & _ & ->).
  apply console_log_inv in H. subst w1. split; reflexivity.
Qed.

Lemma createTx_inr_files (u : bool) (w w1 : World C) (s : string) :
  createTx'' u w = (inr s, w1) ->
  fs w1 = <[unsigned_path := s]> (fs w) /\ stderr w1 = stderr w.
Proof.
  intros Hrun. unfold createTx in Hrun.
  apply bind_inr_inv in Hrun. destruct Hrun as (? & w0 & Hlog & H).
  apply console_log_inv in Hlog. subst w0.
  apply bind_inr_inv in H. destruct H as (dest & wg & Hgen & H).
  apply lift_outside_inv in Hgen. destruct Hgen as (o1 & _ & ->).
  apply bind_inr_inv in H. destruct H as (tx & wt & Htx & H).
  apply encodeAndWrite_inr_inv in H. destruct H as (raw & _ & _ & ->).
  assert (Hq : fs wt = fs w /\ stderr wt = stderr w).
  { destruct u.
    - apply bind_inr_inv in Htx. destruct Htx as (na & wn & Hna & Hret).
      injection Hret as _ <-.
      pose proof (keeps_fetchNonceInfo C
                    (fun w w' => fs w' = fs w /\ stderr w' = stderr w)
                    nonceKeypair) as Hk.
      specialize (Hk ltac:(split; reflexivity) quiet_trans
                    ltac:(split; reflexivity) ltac:(split; reflexivity)).
      match type of Hna with
      | fetchNonceInfo _ _ ?w0 = _ => specialize (Hk w0)
      end.
      rewrite Hna in Hk. exact Hk.
    - apply bind_inr_inv in Htx. destruct Htx as (bh & wn & Hbh & Hret).
      injection Hret as _ <-.
      apply call_outside_inv in Hbh. destruct Hbh as (o2 & _ & ->).
      split; reflexivity. }
  destruct Hq as [Hf He]. simpl. rewrite Hf, He. split; reflexivity.
Qed.

Lemma signOffline_inr_files (waitTime : Js.number) (u : bool)
    (w w1 : World C) (s : string) :
  signOffline'' waitTime u w = (inr s, w1) ->
  fs w1 = <[signed_path := s]> (fs w)
  /\ stderr w1 = (if setTimeout_overflows waitTime
                  then stderr w ++ [timeout_overflow_warning waitTime]
                  else stderr w)%list.
Proof.
  rewrite signOffline_unfold. intros H.
  destruct (reload C unsigned_path (fs w !! unsigned_path)) as [e | utx];
    [discriminate H |].
  destruct (tx_sign C _ utx) as [e | stx]; [discriminate H |].
  apply encodeAndWrite_inr_inv in H. destruct H as (raw & _ & _ & ->).
  split; reflexivity.
Qed.

Lemma executeTx_quiet (w : World C) :
  fs (snd (executeTx C w)) = fs w /\ stderr (snd (executeTx C w)) = stderr w.
Proof.
  apply (keeps_executeTx C (fun w w' => fs w' = fs w /\ stderr w' = stderr w));
    try (intros; split; reflexivity).
  apply quiet_trans.
Qed.

(** A run in which all four stages succeed ends normally; its only change
    to the files is that the unsigned and the signed artifact now hold the
    texts the builder and the signer returned; and when the delay is a
    number from 0 to 2^31-1 standard error gains nothing. *)
Theorem main_success_leaves_both_artifacts
    (argv : list string) (a : Args) (errs : list string) (w w1 : World C)
    (Hparse : parseCommandLineArgs argv = (Parsed a, errs))
    (Hrun : pipeline'' a (announced w a) = (inr tt, w1)) :
  main'' argv w = (Completed, w1)
  /\ (delay_in_range (waitTime a) = true -> stderr w1 = stderr w)
  /\ exists w2 w3 s3 s4,
       createTx'' (useNonce a) w2 = (inr s3, w3)
       /\ fst (signOffline'' (waitTime a) (useNonce a) w3) = inr s4
       /\ fs w1 = <[signed_path := s4]> (<[unsigned_path := s3]> (fs w))
       /\ fs w1 !! unsigned_path = Some s3
       /\ fs w1 !! signed_path = Some s4.
Proof.
  split; [rewrite (main_parsed C _ _ _ _ _ _ w Hparse), Hrun; reflexivity |].
  unfold pipeline in Hrun.
  apply bind_inr_inv in Hrun. destruct Hrun as (x2 & w2 & H2 & H).
  apply bind_inr_inv in H. destruct H as (s3 & w3 & H3 & H).
  apply bind_inr_inv in H. destruct H as (s4 & w4 & H4 & H).
  apply bind_inr_inv in H. destruct H as (x5 & w5 & H5 & H).
  injection H as <-.
  apply createNonce_inr_quiet in H2. destruct H2 as [Hf2 He2].
  pose proof (createTx_inr_files _ _ _ _ H3) as [Hf3 He3].
  pose proof (signOffline_inr_files _ _ _ _ _ H4) as [Hf4 He4].
  pose proof (executeTx_quiet w4) as [Hf5 He5]. rewrite H5 in Hf5, He5.
  simpl in Hf5, He5, Hf2, He2.
  assert (Hfs : fs w5 = <[signed_path := s4]> (<[unsigned_path := s3]> (fs w)))
    by congruence.
  split.
  { intros Hfits. rewrite He5, He4, He3, He2.
    replace (setTimeout_overflows (waitTime a)) with false; [reflexivity |].
    unfold delay_in_range in Hfits. unfold setTimeout_overflows.
    destruct (waitTime a) as [| neg | [] m]; try discriminate Hfits;
      try reflexivity.
    apply N.leb_le in Hfits. symmetry. apply N.ltb_ge. exact Hfits. }
  exists w2, w3, s3, s4. split; [exact H3 |]. split; [rewrite H4; reflexivity |].
  split; [exact Hfs |]. rewrite Hfs. split.
  - rewrite lookup_insert_ne by (intros H; discriminate H).
    apply lookup_insert_eq.
  - apply lookup_insert_eq.
Qed.

(** The exit status of a run is 1 exactly when the command line is refused,
    in which case the only effect is the one line on standard error, and 0
    in every other case, whatever happens in the stages. *)
Theorem main_exit_status (argv : list string) (w : World C) :
  (exit_status (fst (main'' argv w)) = 1%Z
   /\ exists m, refused (drop 2 argv) m
                /\ snd (main'' argv w) = refused_world w m)
  \/ (exit_status (fst (main'' argv w)) = 0%Z
      /\ forall m, ~ refused (drop 2 argv) m).
Proof.
  unfold main. destruct (parseCommandLineArgs argv) as [[a | code] errs] eqn:Hp;
    unfold parseCommandLineArgs in Hp.
  - right. split; [reflexivity |]. intros m Hm.
    rewrite (parse_loop_refused _ _ Hm) in Hp. discriminate Hp.
  - left. apply parse_loop_exits_refused in Hp.
    destruct Hp as (m & Hm & -> & ->). split; [reflexivity |].
    exists m. split; [exact Hm | reflexivity].
Qed.

End WholeRun.

(** ** The further properties on the reference collaborator *)

Lemma parse_loop_app_witness :
  parse_loop (["-waitTime"; "5"] ++ ["-useNonce"]) false (Js.JInt false 120000)
  = parse_loop ["-useNonce"] false (Js.JInt false 5).
Proof.
  exact (parse_loop_app ["-waitTime"; "5"] ["-useNonce"] false
           (Js.JInt false 120000) (mkArgs false (Js.JInt false 5)) []
           eq_refl).
Defined.


Lemma parseInt_skips_white_space_witness :
  Js.parseInt ("  " ++ "42") = Js.parseInt "42".
Proof. exact (JsExtra.parseInt_skips_white_space "  " "42" eq_refl). Defined.

Lemma parseCommandLineArgs_signed_delay_witness :
  parseCommandLineArgs ["node"; "app.ts"; "-waitTime"; "-5"]
  = (Parsed (mkArgs false (negate (Js.parseInt "5"))), []).
Proof.
  exact (proj2 (proj2 (JsExtra.parseCommandLineArgs_signed_delay "node"
                         "app.ts" "5" eq_refl))).
Defined.

Lemma createNonce_sign_failure_unlogged_witness :
  exists w1,
    createNonce Scenario.keyless Ref.authority Ref.nonceKey
      Scenario.world_keyless
    = (inl (mkError "missing key material"), w1)
    /\ stderr w1 = [].
Proof.
  eexists. split.
  - apply (createNonce_sign_failure_unlogged Scenario.keyless Ref.authority
             Ref.nonceKey Scenario.world_keyless 1447680 Ref.ledger0 "hash0"
             157 Ref.ledger0); reflexivity.
  - reflexivity.
Defined.

Lemma createNonce_submit_failure_reported_twice_witness :
  exists e w1,
    main Ref.collab Ref.sender Ref.authority Ref.nonceKey ["node"; "app.ts"]
      Scenario.world_refusing = (Completed, w1)
    /\ stderr w1 = [nonce_failure_line e; [LErr e]]
    /\ fs w1 = ∅.
Proof.
  destruct (tx_sign Ref.collab [Ref.nonceKey; Ref.authority]
              (newNonceTx Ref.collab Ref.authority Ref.nonceKey 1447680
                 "hash0" 157)) as [e | stx] eqn:Hsign;
    [vm_compute in Hsign; discriminate Hsign |].
  destruct (tx_serialize Ref.collab true stx) as [e | raw] eqn:Hraw.
  { vm_compute in Hsign. injection Hsign as <-. vm_compute in Hraw.
    discriminate Hraw. }
  destruct (createNonce_submit_failure_reported_twice Ref.collab Ref.sender
              Ref.authority Ref.nonceKey Scenario.world_refusing 1447680
              Scenario.ledger_refusing "hash0" 157 Scenario.ledger_refusing
              stx raw (mkError "failed to send transaction")
              Scenario.ledger_refusing ["node"; "app.ts"]
              (mkArgs false (Js.JInt false 120000)) []
              eq_refl eq_refl Hsign Hraw eq_refl eq_refl) as [_ Hmain].
  eexists. eexists. split; [exact Hmain |]. split; reflexivity.
Defined.

Lemma createTx_nonce_account_missing_witness :
  exists w1,
    createTx Ref.collab Ref.sender Ref.authority Ref.nonceKey true
      Ref.world_empty = (inl (mkError "No account info found"), w1)
    /\ fs w1 = ∅.
Proof.
  eexists. split.
  - apply (createTx_nonce_account_missing Ref.collab Ref.sender Ref.authority
             Ref.nonceKey Ref.world_empty
             (mkKeypair "0-generated" [])
             (Ref.mkLedger [] "hash0" 7 true [] 1)
             (Ref.mkLedger [] "hash0" 7 true [] 1)); reflexivity.
  - reflexivity.
Defined.

Lemma signOffline_effects_witness :
  exists e,
    signOffline Ref.collab Ref.sender Ref.authority (Js.JInt false 0) true
      Ref.world0 = (inl e, waited Ref.world0 (Js.JInt false 0)).
Proof.
  eexists.
  exact (proj2 (proj2 (signOffline_effects Ref.collab Ref.sender
                         Ref.authority (Js.JInt false 0) true Ref.world0))
           eq_refl).
Defined.

Lemma executeTx_submits_at_most_once_witness :
  fst (executeTx Ref.collab Scenario.world_mislabeled)
  = inl (mkError "Signature verification failed")
  /\ outside (snd (executeTx Ref.collab Scenario.world_mislabeled))
     = outside Scenario.world_mislabeled.
Proof.
  apply (proj2 (proj2 (executeTx_submits_at_most_once Ref.collab
                         Scenario.world_mislabeled))
           (mkTransaction [transfer "sender" "recipient" TRANSFER_AMOUNT]
              (Some "sender") (Some "hash0") None [("sender", None)]));
    vm_compute; reflexivity.
Defined.

Lemma signOffline_reloads_the_draft_witness :
  exists s w1 draft,
    createTx Ref.collab Ref.sender Ref.authority Ref.nonceKey true Ref.world0
    = (inr s, w1)
    /\ reload Ref.collab unsigned_path (fs w1 !! unsigned_path) = inr draft
    /\ signatures draft = [("sender", None); ("authority", None)].
Proof.
  pose (raw := Ref.ser_wire
                 [nonceAdvance "authority" "nonce";
                  transfer "sender" "0-generated" TRANSFER_AMOUNT]
                 "N1" [("sender", None); ("authority", None)]).
  pose proof (run_result
                (createTx Ref.collab Ref.sender Ref.authority Ref.nonceKey true
                   Ref.world0)
                (inr (bs58_encode Ref.collab raw))
                ltac:(vm_compute; reflexivity)) as Hbuilt.
  destruct (signOffline_reloads_the_draft Ref.collab Ref.sender Ref.authority
              Ref.nonceKey true Ref.world0 _ _ raw
              (mkTransaction
                 [nonceAdvance "authority" "nonce";
                  transfer "sender" "0-generated" TRANSFER_AMOUNT]
                 (Some "sender") (Some "N1") None
                 [("sender", None); ("authority", None)])
              Hbuilt (RefFacts.bs58_decode_encode raw)
              ltac:(vm_compute; reflexivity))
    as (_ & Hre & _).
  eexists. eexists. eexists. split; [exact Hbuilt |].
  split; [exact Hre | reflexivity].
Defined.

Lemma executeTx_submits_what_was_signed_witness :
  exists s w1,
    signOffline Ref.collab Ref.sender Ref.authority (Js.JInt false 0) false
      Ref.world_drafted = (inr s, w1)
    /\ fs w1 !! signed_path = Some s
    /\ fst (executeTx Ref.collab w1) = inr undefined.
Proof.
  pose (raw := Ref.ser_wire [transfer "sender" "0-generated" TRANSFER_AMOUNT]
                 "hash0" [("sender", Some [Byte.x01])]).
  pose proof (run_result
                (signOffline Ref.collab Ref.sender Ref.authority
                   (Js.JInt false 0) false Ref.world_drafted)
                (inr (bs58_encode Ref.collab raw))
                ltac:(vm_compute; reflexivity)) as Hsigned.
  destruct (executeTx_submits_what_was_signed Ref.collab Ref.sender
              Ref.authority (Js.JInt false 0) false Ref.world_drafted _ _
              raw
              (mkTransaction [transfer "sender" "0-generated" TRANSFER_AMOUNT]
                 (Some "sender") (Some "hash0") None
                 [("sender", Some [Byte.x01])])
              raw Hsigned (RefFacts.bs58_decode_encode raw)
              ltac:(vm_compute; reflexivity) ltac:(vm_compute; reflexivity))
    as (Hfile & Hexec).
  eexists. eexists. split; [exact Hsigned |]. split; [exact Hfile |].
  vm_compute. reflexivity.
Defined.

Lemma main_success_leaves_both_artifacts_witness :
  exists w1 s3 s4,
    main Ref.collab Ref.sender Ref.authority Ref.nonceKey
      ["node"; "app.ts"; "-useNonce"; "-waitTime"; "0"] Ref.world0
    = (Completed, w1)
    /\ stderr w1 = []
    /\ fs w1 !! unsigned_path = Some s3
    /\ fs w1 !! signed_path = Some s4.
Proof.
  pose proof (run_result
                (pipeline Ref.collab Ref.sender Ref.authority Ref.nonceKey
                   (mkArgs true (Js.JInt false 0))
                   (announced Ref.world0 (mkArgs true (Js.JInt false 0))))
                (inr tt) ltac:(vm_compute; reflexivity)) as Hrun.
  destruct (main_success_leaves_both_artifacts Ref.collab Ref.sender
              Ref.authority Ref.nonceKey
              ["node"; "app.ts"; "-useNonce"; "-waitTime"; "0"]
              (mkArgs true (Js.JInt false 0)) [] Ref.world0 _ eq_refl Hrun)
    as (Hmain & Herr & w2 & w3 & s3 & s4 & _ & _ & _ & Hu & Hs).
  eexists. exists s3, s4. split; [exact Hmain |].
  split; [exact (Herr eq_refl) |].
  split; assumption.
Defined.
